(** * gitdb: the block/record store and the model envelope

    A shallow embedding of [block] (the block file reader and the in-memory
    record index) and of [model.go] (the [Model] contract, the time-stamped
    base model and the envelope built by [wrap]), followed by the properties
    the specification states about them.

    Go values are modelled as follows: a [map[string]T] is a [gmap string T],
    and an [option] of one where [encoding/json] decodes into the variable
    and may leave it nil ([None]) or allocate it; a slice is a [list]; a
    method with a pointer receiver that writes to its receiver returns the
    new receiver; a pair of results [(x, err)] is a pair whose second part
    is an [option error] ([None] for [nil]); a run-time panic is the [Panic]
    outcome.  *)

From stdpp Require Import gmap strings list sorting pretty.
From Stdlib Require Import ZArith Ascii.

Local Open Scope string_scope.
Local Set Warnings "-register-all".

(** ** Values of the Go run time *)

(** What [encoding/json] stores in an [interface{}]: [nil], a [bool], a
    [float64], a [string], a [[]interface{}] or a [map[string]interface{}].
    A [float64] is kept as the text [fmt] prints for it under [%v]; the
    members of an object are kept in document order, and a later member
    with the same key replaces an earlier one when the object is stored
    into a Go map or printed as one. *)
Inductive json : Type :=
  | JNull
  | JBool (b : bool)
  | JNum (text : string)
  | JStr (s : string)
  | JArr (elems : list json)
  | JObj (members : list (string * json)).

(** The error values that reach this code.  [badBlockError] and
    [badRecordError] are the repository's own error types; their first field
    is the message, their second the block file or the record key. *)
Inductive error : Type :=
  | errorString (msg : string)
  | PathError (path : string)
  | SyntaxError (msg : string)
  | UnmarshalTypeError (msg : string)
  | badBlockError (s : string) (blockFile : string)
  | badRecordError (s : string) (recordID : string).

Definition Error (e : error) : string :=
  match e with
  | errorString msg => msg
  | PathError path => "open " ++ path ++ ": no such file or directory"
  | SyntaxError msg => msg
  | UnmarshalTypeError msg => msg
  | badBlockError s _ => s
  | badRecordError s _ => s
  end.

(** A call either returns or panics. *)
Inductive outcome (A : Type) : Type :=
  | Return (a : A)
  | Panic (msg : string).
Arguments Return {A} a.
Arguments Panic {A} msg.

(** ** Collaborators outside the sources at hand *)

(** The Go standard library, as far as [block] calls it. *)
Class GoLib := {
  (** the reader of [encoding/json]: the value a text denotes, or the
      syntax error [json.Unmarshal] reports for it *)
  json_parse : string → json + error;
  (** [json.Indent(&buf, src, "", "\t")]: the indented text, or an error *)
  json_Indent : string → string + error;
  (** [filepath.Join] *)
  filepath_Join : list string → string
}.

(** The crypto helper [decrypt(key, str)] of the repository, which
    [block.decrypt] calls. *)
Class Crypto := {
  decrypt : string → string → string
}.

(** ** record *)

Module record.

(** Modelled from the spec: the declaration of [record] is not among the
    sources at hand.  The fields are the ones [block] reads and writes
    ([Content] in [records], [data] in [MarshalJSON], [key] in [grecords]);
    the specification describes a record as a key with its raw payload,
    named content or data. *)
Record t : Type := mk {
  key : string;
  data : string;
  Content : string
}.

End record.

(** Modelled from the spec: [newRecord] is not among the sources at hand.
    "Record: a key and its raw JSON payload", "created on insert ([add])":
    the record made for [key] and [value] carries [key] and has [value] as
    its content/data. *)
Definition newRecord (key value : string) : record.t :=
  {| record.key := key; record.data := value; record.Content := value |}.

(** ** dataset *)

Module dataset.

(** Modelled from the spec: the declaration of [dataset] is not among the
    sources at hand; these are the fields [block] uses. *)
Record t : Type := mk {
  DbPath : string;
  Name : string;
  cryptoKey : string;
  BadBlocks : list string;
  BadRecords : list string
}.

Definition set_BadBlocks (l : list string) (d : t) : t :=
  {| DbPath := DbPath d; Name := Name d; cryptoKey := cryptoKey d;
     BadBlocks := l; BadRecords := BadRecords d |}.

Definition set_BadRecords (l : list string) (d : t) : t :=
  {| DbPath := DbPath d; Name := Name d; cryptoKey := cryptoKey d;
     BadBlocks := BadBlocks d; BadRecords := l |}.

End dataset.

(** ** The world a block lives in *)

(** A block holds a pointer to its dataset, and several blocks share one
    dataset.  The pointee is kept here, next to the files on disk and the
    list of the files read so far (one entry per [ioutil.ReadFile] call,
    oldest first). *)
Record world : Type := mkWorld {
  Dataset : dataset.t;
  files : gmap string string;
  reads : list string
}.

Definition set_Dataset (d : dataset.t) (w : world) : world :=
  {| Dataset := d; files := files w; reads := reads w |}.

(** [orderMapKeys]: the keys of a map, sorted by [sort.Strings]. *)
Definition orderMapKeys {V : Type} (_map : gmap string V) : list string :=
  merge_sort String.le (map_to_list _map).*1.

(** ** encoding/json: storing a document into a Go variable *)

Definition kind (v : json) : string :=
  match v with
  | JNull => "null"
  | JBool _ => "bool"
  | JNum _ => "number"
  | JStr _ => "string"
  | JArr _ => "array"
  | JObj _ => "object"
  end.

(** Storing a document into a variable of type [map[string]interface{}].
    The documentation of [json.Unmarshal]: "To unmarshal a JSON object into
    a map, Unmarshal first establishes a map to use.  If the map is nil,
    Unmarshal allocates a new map.  Otherwise Unmarshal reuses the existing
    map, keeping existing entries.  Unmarshal then stores key-value pairs
    from the JSON object into the map."  And: "The JSON null value
    unmarshals into an interface, map, pointer, or slice by setting that Go
    value to nil."  Anything else is a type error and leaves the map as it
    is.  [None] is the nil map. *)
Definition store_map (v : json) (m : option (gmap string json))
    : option (gmap string json) * option error :=
  match v with
  | JNull => (None, None)
  | JObj members =>
      (Some (foldl (λ acc kv, <[kv.1 := kv.2]> acc) (default ∅ m) members), None)
  | _ => (m, Some (UnmarshalTypeError
            ("json: cannot unmarshal " ++ kind v
             ++ " into Go value of type map[string]interface {}")))
  end.

(** [json.Unmarshal(data, &m)] for [m] of type [map[string]interface{}]. *)
Definition Unmarshal_map `{!GoLib} (data : string) (m : option (gmap string json))
    : option (gmap string json) * option error :=
  match json_parse data with
  | inr e => (m, Some e)
  | inl v => store_map v m
  end.

(** Storing a document into a variable of type [map[string]string]: a member
    that is neither a string nor null is stored as the empty string and
    reported once the whole object has been stored. *)
Definition store_string_map (v : json) (m : option (gmap string string))
    : option (gmap string string) * option error :=
  match v with
  | JNull => (None, None)
  | JObj members =>
      foldl (λ acc kv,
               match kv.2 with
               | JStr s => (Some (<[kv.1 := s]> (default ∅ acc.1)), acc.2)
               | JNull => (Some (<[kv.1 := ""]> (default ∅ acc.1)), acc.2)
               | x => (Some (<[kv.1 := ""]> (default ∅ acc.1)),
                       match acc.2 with
                       | Some e => Some e
                       | None => Some (UnmarshalTypeError
                           ("json: cannot unmarshal " ++ kind x
                            ++ " into Go value of type string"))
                       end)
               end)
            (Some (default ∅ m), None) members
  | _ => (m, Some (UnmarshalTypeError
            ("json: cannot unmarshal " ++ kind v
             ++ " into Go value of type map[string]string")))
  end.

(** [json.Unmarshal(data, &raw)] for [raw] of type [map[string]string]. *)
Definition Unmarshal_string_map `{!GoLib} (data : string) (m : option (gmap string string))
    : option (gmap string string) * option error :=
  match json_parse data with
  | inr e => (m, Some e)
  | inl v => store_string_map v m
  end.

(** Field names are matched without regard to the case of ASCII letters. *)
Definition upper (c : Ascii.ascii) : Ascii.ascii :=
  let n := Ascii.nat_of_ascii c in
  if (97 <=? n)%nat && (n <=? 122)%nat then Ascii.ascii_of_nat (n - 32) else c.

Fixpoint equalFold (a b : string) : bool :=
  match a, b with
  | "", "" => true
  | String x a', String y b' => Ascii.eqb (upper x) (upper y) && equalFold a' b'
  | _, _ => false
  end.

(** [json.Marshal] of a [map[string]interface{}]: [null] for the nil map,
    else an object with the keys in sorted order.  The bytes are kept as the
    document they spell: [encoding/json] reads back what it wrote. *)
Definition Marshal_map (m : option (gmap string json)) : json :=
  match m with
  | None => JNull
  | Some m =>
      JObj (omap (λ k, (λ v, (k, v)) <$> m !! k)
                 (orderMapKeys m))
  end.

(** ** fmt: the verb [%v] *)

Definition join (sep : string) (l : list string) : string :=
  match l with
  | [] => ""
  | x :: l' => foldl (λ acc y, acc ++ sep ++ y) x l'
  end.

(** [fmt.Sprintf("%v", x)] for a value [x] that [encoding/json] decoded;
    [JNull] is the nil interface, which is also what reading an absent key
    of a map yields.  A nested object is a [map[string]interface{}]: it has
    one entry for every key, the one of the last member with that key, and
    [fmt] prints the entries of a map in the order of their keys. *)
Fixpoint Sprintf_v (x : json) : string :=
  match x with
  | JNull => "<nil>"
  | JBool true => "true"
  | JBool false => "false"
  | JNum text => text
  | JStr s => s
  | JArr elems => "[" ++ join " " (map Sprintf_v elems) ++ "]"
  | JObj members =>
      let entries : gmap string string :=
        foldl (λ acc kv, <[kv.1 := kv.2]> acc) ∅
              (map (λ kv, (kv.1, Sprintf_v kv.2)) members) in
      "map["
      ++ join " " (map (λ k, k ++ ":" ++ default "" (entries !! k))
                       (orderMapKeys entries))
      ++ "]"
  end.

(** ** formatBytes

    The constants [sizeByte] ... [sizeTb] are the powers [1 << (10 * iota)].
    [formatBytes] computes in [float32]; every value it meets is at least 1
    and is a whole number divided by a power of two, so a value is kept
    here exactly, as the pair of that whole number and the exponent of the
    power. *)

Definition sizeByte : N := 2 ^ 0.
Definition sizeKb : N := 2 ^ 10.
Definition sizeMb : N := 2 ^ 20.
Definition sizeGb : N := 2 ^ 30.
Definition sizeTb : N := 2 ^ 40.

(** [float32(bytes)] for a [uint64]: the nearest number with a significand
    of 24 bits, the even one of two equally near. *)
Definition float32_of_uint64 (bytes : N) : N :=
  if (bytes <? 2 ^ 24)%N then bytes
  else
    let e := (N.log2 bytes - 23)%N in
    let q := (bytes / 2 ^ e)%N in
    let r := (bytes mod 2 ^ e)%N in
    let half := (2 ^ (e - 1))%N in
    let q := if (half <? r)%N || ((r =? half)%N && N.odd q) then (q + 1)%N else q in
    (q * 2 ^ e)%N.

(** [fmt.Sprintf("%.1f", value)] for the value [num / 2^shift]: the nearest
    number of tenths, the even one of two equally near, written with one
    digit after the point. *)
Definition Sprintf_1f (num shift : N) : string :=
  let q := (10 * num / 2 ^ shift)%N in
  let r := ((10 * num) mod 2 ^ shift)%N in
  let tenths := if (2 ^ shift <? 2 * r)%N || ((2 * r =? 2 ^ shift)%N && N.odd q)
                then (q + 1)%N else q in
  pretty (tenths / 10)%N ++ "." ++ pretty (tenths mod 10)%N.

(** [strings.TrimSuffix] *)
Fixpoint TrimSuffix (s suffix : string) : string :=
  if String.eqb s suffix then ""
  else match s with
       | "" => ""
       | String c s' => String c (TrimSuffix s' suffix)
       end.

(** The last two statements of [formatBytes], for the value
    [float32(bytes) / 2^shift] and the unit chosen by the [switch]. *)
Definition formatValue (bytes shift : N) (unit : string) : string :=
  let stringValue := Sprintf_1f (float32_of_uint64 bytes) shift in
  let stringValue := TrimSuffix stringValue ".0" in
  stringValue ++ unit.

Definition formatBytes (bytes : N) : string :=
  if (sizeTb <=? bytes)%N then formatValue bytes 40 "TB"
  else if (sizeGb <=? bytes)%N then formatValue bytes 30 "GB"
  else if (sizeMb <=? bytes)%N then formatValue bytes 20 "MB"
  else if (sizeKb <=? bytes)%N then formatValue bytes 10 "KB"
  else if (sizeByte <=? bytes)%N then formatValue bytes 0 "B"
  else if (bytes =? 0)%N then "0"
  else formatValue bytes 0 "".

(** ** Further collaborators *)

(** What [encoding/json] writes for a Go string: the string "coerced to
    valid UTF-8, replacing invalid bytes with the Unicode replacement
    rune". *)
Class GoUTF8 := {
  ToValidUTF8 : string → string
}.

(** [sort.Sort(collection(records))].  The type [collection] and its
    comparison are declared outside the sources at hand; whatever the
    comparison is, [sort.Sort] only swaps elements, so the sorted slice
    holds the same records. *)
Class SortCollection := {
  sort_collection : list record.t → list record.t;
  sort_collection_Permutation : ∀ l, sort_collection l ≡ₚ l
}.

(** ** table *)

Module table.

(** Modelled from the spec: the declaration of [table] is not among the
    sources at hand; [block.table] fills its [Headers] and [Rows]. *)
Record t : Type := mk {
  Headers : list string;
  Rows : list (list string)
}.

End table.

(** ** Calls that read and write the world *)

Definition M (A : Type) : Type := world → world * outcome A.

Definition ret {A : Type} (a : A) : M A := λ w, (w, Return a).

Definition bind {A B : Type} (c : M A) (k : A → M B) : M B :=
  λ w, match c w with
       | (w', Return a) => k a w'
       | (w', Panic msg) => (w', Panic msg)
       end.

Definition panic {A : Type} (msg : string) : M A := λ w, (w, Panic msg).

Definition gets {A : Type} (f : world → A) : M A := λ w, (w, Return (f w)).

Definition modify (f : world → world) : M unit := λ w, (f w, Return tt).

Global Instance M_ret : MRet M := @ret.
Global Instance M_bind : MBind M := λ A B k c, bind c k.

(** [ioutil.ReadFile]: the bytes of the file, or an error when there is
    none; the read is logged. *)
Definition ReadFile (path : string) : M (string * option error) :=
  λ w,
    let w' := {| Dataset := Dataset w; files := files w;
                 reads := reads w ++ [path] |} in
    match files w !! path with
    | Some data => (w', Return (data, None))
    | None => (w', Return ("", Some (PathError path)))
    end.

(** ** block *)

Module block.

(** The struct [block].  Its [Dataset] pointer is the [Dataset] of the
    world; [recs] is the map [newBlock] allocates. *)
Record t : Type := mk {
  Name : string;
  Size : Z;
  Records : list record.t;
  BadRecords : list string;
  recs : gmap string record.t;
  dataset : string
}.

Definition set_Records (l : list record.t) (b : t) : t :=
  {| Name := Name b; Size := Size b; Records := l; BadRecords := BadRecords b;
     recs := recs b; dataset := dataset b |}.

Definition set_recs (m : gmap string record.t) (b : t) : t :=
  {| Name := Name b; Size := Size b; Records := Records b;
     BadRecords := BadRecords b; recs := m; dataset := dataset b |}.

(** The variable [rawV2] of [table]. *)
Record rawV2_t : Type := mkRawV2 {
  Indexes : option (gmap string json);
  Data : option (gmap string json)
}.

Section with_collaborators.
Context `{!GoLib, !Crypto}.

(** [filepath.Join(b.Dataset.DbPath, b.Dataset.Name, b.Name+".json")] *)
Definition blockFile (b : t) (w : world) : string :=
  filepath_Join [dataset.DbPath (Dataset w); dataset.Name (Dataset w);
                 Name b ++ ".json"].

Definition decrypt (b : t) (str : string) : M string :=
  cryptoKey ← gets (λ w, dataset.cryptoKey (Dataset w));
  let dec := decrypt cryptoKey str in
  if (0 <? String.length dec)%nat then mret dec
  else mret str.

(** The loop of [readBlock] over [recordKeys]; [record] is the variable the
    loop decodes every entry into. *)
Fixpoint range_recordKeys (b : t) (dataBlock : option (gmap string json))
    (recordKeys : list string) (record : option (gmap string json))
    (result : list string) : M (list string * option error) :=
  match recordKeys with
  | [] => mret (result, None)
  | k :: recordKeys =>
      match default ∅ dataBlock !! k with
      | Some (JStr recordStr) =>
          recordStr ← decrypt b recordStr;
          match Unmarshal_map recordStr record with
          | (_, Some jsonErr) =>
              mret (result, Some (badRecordError (Error jsonErr ++ " - " ++ k) k))
          | (record, None) =>
              match json_Indent recordStr with
              | inr jsonErr =>
                  mret (result, Some (badRecordError (Error jsonErr ++ " - " ++ k) k))
              | inl buf =>
                  range_recordKeys b dataBlock recordKeys record (result ++ [buf])
              end
          end
      | _ => panic "interface conversion: interface {} is not string"
      end
  end.

Definition readBlock (b : t) : M (list string * option error) :=
  blockFile ← gets (blockFile b);
  '(data, err) ← ReadFile blockFile;
  match err with
  | Some err => mret ([], Some err)
  | None =>
      match Unmarshal_map data None with
      | (_, Some err) =>
          mret ([], Some (badBlockError (Error err ++ " - " ++ blockFile) blockFile))
      | (dataBlock, None) =>
          let recordKeys := orderMapKeys (default ∅ dataBlock) in
          range_recordKeys b dataBlock recordKeys None []
      end
  end.

Definition records (b : t) : M (list record.t) :=
  _ ← modify (λ w, set_Dataset (dataset.set_BadBlocks [] (Dataset w)) w);
  _ ← modify (λ w, set_Dataset (dataset.set_BadRecords [] (Dataset w)) w);
  '(recs, err) ← readBlock b;
  match err with
  | Some err =>
      _ ← match err with
          | badBlockError _ blockFile =>
              modify (λ w, set_Dataset
                (dataset.set_BadBlocks (dataset.BadBlocks (Dataset w) ++ [blockFile])
                                       (Dataset w)) w)
          | badRecordError _ recordID =>
              modify (λ w, set_Dataset
                (dataset.set_BadRecords (dataset.BadRecords (Dataset w) ++ [recordID])
                                        (Dataset w)) w)
          | _ => mret tt
          end;
      mret []
  | None =>
      mret (map (λ rec, {| record.key := ""; record.data := ""; record.Content := rec |})
               recs)
  end.

Definition loadRecords (b : t) : M t :=
  if (length (Records b) =? 0)%nat then
    rs ← records b;
    mret (set_Records rs b)
  else mret b.

Definition RecordCount (b : t) : M (t * nat) :=
  b ← loadRecords b;
  mret (b, length (Records b)).

(** [json.Unmarshal(data, &rawV2)]: [null] changes nothing; the members of
    an object are stored in document order, each into the field its key
    names, and a member whose value does not fit the field is reported once
    the whole object has been stored; a field no member names keeps the
    value it has. *)
Definition store_field (r : rawV2_t * option error) (kv : string * json)
    : rawV2_t * option error :=
  let first e := match r.2 with Some e0 => Some e0 | None => e end in
  if equalFold kv.1 "Indexes" then
    let '(m, e) := store_map kv.2 (Indexes r.1) in
    ({| Indexes := m; Data := Data r.1 |}, first e)
  else if equalFold kv.1 "Data" then
    let '(m, e) := store_map kv.2 (Data r.1) in
    ({| Indexes := Indexes r.1; Data := m |}, first e)
  else r.

Definition Unmarshal_rawV2 (data : string) (rawV2 : rawV2_t)
    : rawV2_t * option error :=
  match json_parse data with
  | inr e => (rawV2, Some e)
  | inl JNull => (rawV2, None)
  | inl (JObj members) => foldl store_field (rawV2, None) members
  | inl v => (rawV2, Some (UnmarshalTypeError
               ("json: cannot unmarshal " ++ kind v ++ " into Go value of type struct")))
  end.

(** One cell of a row: [fmt.Sprintf("%v", jsonMap[key])], cut to its first
    40 bytes when it is longer. *)
Definition cell (jsonMap : option (gmap string json)) (key : string) : string :=
  let val := Sprintf_v (default JNull (default ∅ jsonMap !! key)) in
  if (40 <? String.length val)%nat then String.substring 0 40 val else val.

(** The loop of [table] over [b.Records]; [rawV2] and [jsonMap] are declared
    before the loop and decoded into on every turn.  The errors of the three
    [encoding/json] calls are only logged. *)
Fixpoint range_Records (records : list record.t) (i : nat) (rawV2 : rawV2_t)
    (jsonMap : option (gmap string json)) (t : table.t) : table.t :=
  match records with
  | [] => t
  | record :: records =>
      let '(rawV2, _) := Unmarshal_rawV2 (record.Content record) rawV2 in
      let b := Marshal_map (Data rawV2) in
      let '(jsonMap, _) := store_map b jsonMap in
      let t := if (i =? 0)%nat
               then {| table.Headers := orderMapKeys (default ∅ jsonMap);
                       table.Rows := table.Rows t |}
               else t in
      let row := map (cell jsonMap) (table.Headers t) in
      range_Records records (S i) rawV2 jsonMap
        {| table.Headers := table.Headers t; table.Rows := table.Rows t ++ [row] |}
  end.

Definition table (b : t) : M (t * table.t) :=
  b ← loadRecords b;
  mret (b, range_Records (Records b) 0 {| Indexes := None; Data := None |} None
             {| table.Headers := []; table.Rows := [] |}).

Definition newBlock (dataset : string) : t :=
  {| Name := ""; Size := 0; Records := []; BadRecords := [];
     recs := ∅; dataset := dataset |}.

Definition UnmarshalJSON (b : t) (data : string) : t * option error :=
  match Unmarshal_string_map data None with
  | (_, Some err) => (b, Some err)
  | (raw, None) =>
      (set_recs (map_imap (λ k v, Some (newRecord k v)) (default ∅ raw) ∪ recs b) b,
       None)
  end.

Definition add (b : t) (key value : string) : t :=
  set_recs (<[key := newRecord key value]> (recs b)) b.

Definition get (b : t) (key : string) : option record.t * option error :=
  match recs b !! key with
  | Some r => (Some r, None)
  | None => (None, Some (errorString "key does not exist"))
  end.

Definition delete (b : t) (key : string) : t * option error :=
  match recs b !! key with
  | Some _ => (set_recs (base.delete key (recs b)) b, None)
  | None => (b, Some (errorString "key does not exist"))
  end.

Definition size (b : t) : nat := base.size (recs b).

(** [HumanSize]; [uint64(b.Size)] wraps a negative size around. *)
Definition HumanSize (b : t) : string :=
  formatBytes (Z.to_N (Size b mod 2 ^ 64)).

(** [MarshalJSON].  As for [Marshal_map], the bytes are kept as the
    document they spell: an object with the keys of [raw] in sorted order.
    [json.Marshal] of a map of strings returns no error. *)
Definition MarshalJSON `{!GoUTF8} (b : t) : json * option error :=
  let raw := record.data <$> recs b in
  (JObj (omap (λ k, (λ v, (ToValidUTF8 k, JStr (ToValidUTF8 v))) <$> raw !! k)
              (orderMapKeys raw)),
   None).

(** [grecords]: the loop writes [key] into every record of the index, and
    the records it collects are the ones the index holds.  The order in
    which the loop meets the records, and so the order among records the
    comparison does not tell apart, is not fixed by the source. *)
Definition grecords `{!SortCollection} (b : t) (key : string) : t * list record.t :=
  let recs :=
    (λ v, {| record.key := key; record.data := record.data v;
             record.Content := record.Content v |}) <$> recs b in
  (set_recs recs b, sort_collection (map_to_list recs).*2).

End with_collaborators.

End block.

(** ** model.go *)

Module time.

(** [time.Time], an instant: the seconds since January 1, year 1, 00:00:00
    UTC and the nanoseconds within the second. *)
Record Time : Type := mk {
  sec : Z;
  nsec : Z
}.

Definition IsZero (t : Time) : bool := (sec t =? 0)%Z && (nsec t =? 0)%Z.

End time.

Module TimeStampedModel.

Record t : Type := mk {
  CreatedAt : time.Time;
  UpdatedAt : time.Time
}.

(** [stampTime] is what [time.Now()] returns in this call. *)
Definition BeforeInsert (stampTime : time.Time) (m : t) : t * option error :=
  let m := if time.IsZero (CreatedAt m)
           then {| CreatedAt := stampTime; UpdatedAt := UpdatedAt m |}
           else m in
  let m := {| CreatedAt := CreatedAt m; UpdatedAt := stampTime |} in
  (m, None).

End TimeStampedModel.

(** Modelled from the spec: the declaration of [Schema] is not among the
    sources at hand.  It holds "the owning model's declared index field
    names → values", the field [indexes] that the envelope reads; [any] is
    the type of the values ([interface{}]). *)
Record Schema (any : Type) : Type := mkSchema {
  indexes : gmap string any
}.
Arguments mkSchema {any} indexes.
Arguments indexes {any} _.

(** The interface [Model], for a model type [T].  A method that may write
    to its receiver returns the new receiver. *)
Class Model (any T : Type) := {
  GetSchema : T → Schema any;
  Validate : T → T * option error;
  IsLockable : T → bool;
  GetLockFileNames : T → list string;
  ShouldEncrypt : T → bool;
  BeforeInsert : T → T * option error
}.

(** The constant [RecVersion], declared outside the sources at hand. *)
Class Constants := {
  RecVersion : string
}.

Module model.

Record t (any T : Type) : Type := mk {
  Version : string;
  Indexes : gmap string any;
  Data : T
}.
Arguments mk {any T} Version Indexes Data.
Arguments Version {any T} _.
Arguments Indexes {any T} _.
Arguments Data {any T} _.

Section with_model.
Context {any T : Type} `{!Model any T}.

Definition set_Data (d : T) (m : t any T) : t any T :=
  {| Version := Version m; Indexes := Indexes m; Data := d |}.

Definition GetSchema (m : t any T) : Schema any := GetSchema (Data m).

Definition Validate (m : t any T) : t any T * option error :=
  let '(d, err) := Validate (Data m) in (set_Data d m, err).

Definition IsLockable (m : t any T) : bool := IsLockable (Data m).

Definition ShouldEncrypt (m : t any T) : bool := ShouldEncrypt (Data m).

Definition GetLockFileNames (m : t any T) : list string :=
  GetLockFileNames (Data m).

Definition BeforeInsert (m : t any T) : t any T * option error :=
  let '(d, err) := BeforeInsert (Data m) in
  let m := set_Data d m in
  let m := {| Version := Version m; Indexes := indexes (GetSchema m);
              Data := Data m |} in
  (m, err).

End with_model.

End model.

(** [wrap]; the field [Indexes] is left nil. *)
Definition wrap `{!Constants} {any T : Type} (m : T) : model.t any T :=
  {| model.Version := RecVersion; model.Indexes := ∅; model.Data := m |}.

(** [*model] implements [Model]. *)
Global Instance model_Model {any T : Type} `{!Model any T} : Model any (model.t any T) := {
  GetSchema := model.GetSchema;
  Validate := model.Validate;
  IsLockable := model.IsLockable;
  GetLockFileNames := model.GetLockFileNames;
  ShouldEncrypt := model.ShouldEncrypt;
  BeforeInsert := model.BeforeInsert
}.

(** ** A stand-in for the collaborators

    The definitions above are stated for any [GoLib], [Crypto] and
    [Constants].  To run them on concrete files, this module supplies one
    of each: a reader for JSON texts (numbers are kept as they are written,
    which is what [%v] prints for a whole number below 2^53; the escape
    [\u] is not read), a printer for the indented form, a path join, and a
    toy cipher whose ciphertexts are the plaintext behind the prefix
    [enc:]. *)

Module stand_in.

Definition dquote : Ascii.ascii := Ascii.ascii_of_nat 34.
Definition backslash : Ascii.ascii := Ascii.ascii_of_nat 92.
Definition newline : Ascii.ascii := Ascii.ascii_of_nat 10.
Definition tab : Ascii.ascii := Ascii.ascii_of_nat 9.

(** Writes a text with apostrophes in place of double quotes. *)
Fixpoint q (s : string) : string :=
  match s with
  | "" => ""
  | String c r => String (if Ascii.eqb c "'"%char then dquote else c) (q r)
  end.

Definition is_space (c : Ascii.ascii) : bool :=
  let n := Ascii.nat_of_ascii c in
  (n =? 32)%nat || (n =? 9)%nat || (n =? 10)%nat || (n =? 13)%nat.

Definition is_digit (c : Ascii.ascii) : bool :=
  let n := Ascii.nat_of_ascii c in (48 <=? n)%nat && (n <=? 57)%nat.

Fixpoint skip_space (s : string) : string :=
  match s with
  | String c r => if is_space c then skip_space r else s
  | "" => ""
  end.

Definition unescape (c : Ascii.ascii) : option Ascii.ascii :=
  if Ascii.eqb c dquote then Some dquote
  else if Ascii.eqb c backslash then Some backslash
  else if Ascii.eqb c "/"%char then Some "/"%char
  else if Ascii.eqb c "b"%char then Some (Ascii.ascii_of_nat 8)
  else if Ascii.eqb c "f"%char then Some (Ascii.ascii_of_nat 12)
  else if Ascii.eqb c "n"%char then Some newline
  else if Ascii.eqb c "r"%char then Some (Ascii.ascii_of_nat 13)
  else if Ascii.eqb c "t"%char then Some tab
  else None.

(** The rest of a string literal, after its opening quote. *)
Fixpoint read_string (s : string) : option (string * string) :=
  match s with
  | "" => None
  | String c r =>
      if Ascii.eqb c dquote then Some ("", r)
      else if Ascii.eqb c backslash then
        match r with
        | String e r' =>
            match unescape e, read_string r' with
            | Some x, Some (body, rest) => Some (String x body, rest)
            | _, _ => None
            end
        | "" => None
        end
      else if (Ascii.nat_of_ascii c <? 32)%nat then None
      else match read_string r with
           | Some (body, rest) => Some (String c body, rest)
           | None => None
           end
  end.

Fixpoint read_digits (s : string) : string * string :=
  match s with
  | String c r =>
      if is_digit c then let '(d, rest) := read_digits r in (String c d, rest)
      else ("", s)
  | "" => ("", "")
  end.

Definition read_int (s : string) : option (string * string) :=
  match s with
  | String c r =>
      if Ascii.eqb c "0"%char then Some ("0", r)
      else if is_digit c then Some (read_digits s)
      else None
  | "" => None
  end.

Definition read_frac (s : string) : option (string * string) :=
  match s with
  | String "."%char r =>
      match read_digits r with
      | ("", _) => None
      | (d, rest) => Some (String "."%char d, rest)
      end
  | _ => Some ("", s)
  end.

Definition read_exp (s : string) : option (string * string) :=
  match s with
  | String c r =>
      if Ascii.eqb c "e"%char || Ascii.eqb c "E"%char then
        let '(sign, r1) :=
          match r with
          | String x r' =>
              if Ascii.eqb x "+"%char || Ascii.eqb x "-"%char then (String x "", r') else ("", r)
          | "" => ("", r)
          end in
        match read_digits r1 with
        | ("", _) => None
        | (d, rest) => Some (String c (sign ++ d), rest)
        end
      else Some ("", s)
  | "" => Some ("", s)
  end.

Definition read_number (s : string) : option (string * string) :=
  let '(sign, s1) := match s with
                     | String "-"%char r => ("-", r)
                     | _ => ("", s)
                     end in
  match read_int s1 with
  | Some (i, s2) =>
      match read_frac s2 with
      | Some (f, s3) =>
          match read_exp s3 with
          | Some (e, s4) => Some (sign ++ i ++ f ++ e, s4)
          | None => None
          end
      | None => None
      end
  | None => None
  end.

Fixpoint strip_prefix (p s : string) : option string :=
  match p, s with
  | "", _ => Some s
  | String a p', String b s' => if Ascii.eqb a b then strip_prefix p' s' else None
  | _, "" => None
  end.

(** The reader proper; every call on [fuel] reads at least one byte, so the
    length of the text is fuel enough. *)
Fixpoint read_value (fuel : nat) (s : string) {struct fuel} : option (json * string) :=
  match fuel with
  | 0 => None
  | S fuel =>
      match skip_space s with
      | "" => None
      | String c r as s' =>
          if Ascii.eqb c "{"%char then
            match skip_space r with
            | String "}"%char rest => Some (JObj [], rest)
            | r1 =>
                match read_members fuel r1 with
                | Some (ms, rest) => Some (JObj ms, rest)
                | None => None
                end
            end
          else if Ascii.eqb c "["%char then
            match skip_space r with
            | String "]"%char rest => Some (JArr [], rest)
            | r1 =>
                match read_elems fuel r1 with
                | Some (vs, rest) => Some (JArr vs, rest)
                | None => None
                end
            end
          else if Ascii.eqb c dquote then
            match read_string r with
            | Some (body, rest) => Some (JStr body, rest)
            | None => None
            end
          else if Ascii.eqb c "t"%char then
            match strip_prefix "true" s' with
            | Some rest => Some (JBool true, rest)
            | None => None
            end
          else if Ascii.eqb c "f"%char then
            match strip_prefix "false" s' with
            | Some rest => Some (JBool false, rest)
            | None => None
            end
          else if Ascii.eqb c "n"%char then
            match strip_prefix "null" s' with
            | Some rest => Some (JNull, rest)
            | None => None
            end
          else
            match read_number s' with
            | Some (text, rest) => Some (JNum text, rest)
            | None => None
            end
      end
  end
with read_members (fuel : nat) (s : string) {struct fuel}
    : option (list (string * json) * string) :=
  match fuel with
  | 0 => None
  | S fuel =>
      match skip_space s with
      | String c r =>
          if Ascii.eqb c dquote then
            match read_string r with
            | Some (k, r1) =>
                match skip_space r1 with
                | String ":"%char r2 =>
                    match read_value fuel r2 with
                    | Some (v, r3) =>
                        match skip_space r3 with
                        | String ","%char r4 =>
                            match read_members fuel r4 with
                            | Some (ms, rest) => Some ((k, v) :: ms, rest)
                            | None => None
                            end
                        | String "}"%char rest => Some ([(k, v)], rest)
                        | _ => None
                        end
                    | None => None
                    end
                | _ => None
                end
            | None => None
            end
          else None
      | "" => None
      end
  end
with read_elems (fuel : nat) (s : string) {struct fuel}
    : option (list json * string) :=
  match fuel with
  | 0 => None
  | S fuel =>
      match read_value fuel s with
      | Some (v, r1) =>
          match skip_space r1 with
          | String ","%char r2 =>
              match read_elems fuel r2 with
              | Some (vs, rest) => Some (v :: vs, rest)
              | None => None
              end
          | String "]"%char rest => Some ([v], rest)
          | _ => None
          end
      | None => None
      end
  end.

Definition parse (s : string) : json + error :=
  match read_value (S (String.length s)) s with
  | Some (v, rest) =>
      match skip_space rest with
      | "" => inl v
      | _ => inr (SyntaxError "invalid character after top-level value")
      end
  | None => inr (SyntaxError "invalid character or unexpected end of JSON input")
  end.

Fixpoint escape (s : string) : string :=
  match s with
  | "" => ""
  | String c r =>
      if Ascii.eqb c dquote then String backslash (String dquote (escape r))
      else if Ascii.eqb c backslash then String backslash (String backslash (escape r))
      else if Ascii.eqb c newline then String backslash (String "n" (escape r))
      else if Ascii.eqb c tab then String backslash (String "t" (escape r))
      else String c (escape r)
  end.

(** A text as a JSON string literal. *)
Definition quote (s : string) : string :=
  String dquote (escape s ++ String dquote "").

Fixpoint tabs (n : nat) : string :=
  match n with
  | 0 => ""
  | S n => String tab (tabs n)
  end.

Fixpoint render (depth : nat) (v : json) : string :=
  let sep := "," ++ String newline (tabs (S depth)) in
  match v with
  | JNull => "null"
  | JBool true => "true"
  | JBool false => "false"
  | JNum text => text
  | JStr s => quote s
  | JArr [] => "[]"
  | JArr elems =>
      "[" ++ String newline (tabs (S depth))
      ++ join sep (map (render (S depth)) elems)
      ++ String newline (tabs depth) ++ "]"
  | JObj [] => "{}"
  | JObj members =>
      "{" ++ String newline (tabs (S depth))
      ++ join sep (map (λ kv, quote kv.1 ++ ": " ++ render (S depth) kv.2) members)
      ++ String newline (tabs depth) ++ "}"
  end.

Definition Indent (s : string) : string + error :=
  match parse s with
  | inl v => inl (render 0 v)
  | inr e => inr e
  end.

Definition Join (elem : list string) : string :=
  join "/" (filter (λ e, e ≠ "") elem).

Definition toy_decrypt (key str : string) : string :=
  match strip_prefix "enc:" str with
  | Some plain => plain
  | None => ""
  end.

(** A block file: an object whose members are the given records, each
    written as a JSON string. *)
Definition block_file (entries : list (string * string)) : string :=
  "{" ++ join "," (map (λ kv, quote kv.1 ++ ":" ++ quote kv.2) entries) ++ "}".

Global Instance lib : GoLib := {
  json_parse := parse;
  json_Indent := Indent;
  filepath_Join := Join
}.

Global Instance crypto : Crypto := {
  decrypt := toy_decrypt
}.

Global Instance constants : Constants := {
  RecVersion := "v2"
}.

(** Texts of the examples are valid UTF-8 and are written as they are. *)
Global Instance utf8 : GoUTF8 := {
  ToValidUTF8 s := s
}.

(** A comparison by the field [key]. *)
Definition by_key (r1 r2 : record.t) : Prop :=
  String.le (record.key r1) (record.key r2).

Global Instance by_key_dec : RelDecision by_key.
Proof. intros r1 r2. unfold by_key. apply _. Defined.

Global Instance sort : SortCollection := {
  sort_collection := merge_sort by_key;
  sort_collection_Permutation := merge_sort_Permutation by_key
}.

End stand_in.


(** ** An example model

    A model that embeds [TimeStampedModel], declares [CreatedAt] as its
    only index and stamps itself in [BeforeInsert]; [clock] is what
    [time.Now()] returns. *)

Module example.

Record Stamped : Type := mk {
  clock : time.Time;
  base : TimeStampedModel.t
}.

Global Instance Stamped_Model : Model time.Time Stamped := {
  GetSchema m :=
    mkSchema {[ "CreatedAt" := TimeStampedModel.CreatedAt (base m) ]};
  Validate m := (m, None);
  IsLockable _ := false;
  GetLockFileNames _ := [];
  ShouldEncrypt _ := false;
  BeforeInsert m :=
    let '(b, err) := TimeStampedModel.BeforeInsert (clock m) (base m) in
    ({| clock := clock m; base := b |}, err)
}.

(** A dataset, a block of it, and a world that holds one block file. *)
Definition accounts : dataset.t :=
  {| dataset.DbPath := "/db"; dataset.Name := "accounts";
     dataset.cryptoKey := "key";
     dataset.BadBlocks := []; dataset.BadRecords := [] |}.

Definition b0 : block.t :=
  {| block.Name := "b0"; block.Size := 0; block.Records := [];
     block.BadRecords := []; block.recs := ∅; block.dataset := "accounts" |}.

Definition on_disk (content : string) : world :=
  {| Dataset := accounts;
     files := {[ "/db/accounts/b0.json" := content ]};
     reads := [] |}.

(** A block file with three entries: [a] is a ciphertext of a JSON object,
    [b] and [c] are neither ciphertexts nor JSON. *)
Definition mixed_file : string :=
  stand_in.block_file
    [("c", "bad too"); ("a", "enc:{}"); ("b", "not valid json")].

Definition mixed_entries : gmap string json :=
  {[ "a" := JStr "enc:{}"; "b" := JStr "not valid json"; "c" := JStr "bad too" ]}.

(** A hydrated record: the text of an envelope around the given [Data]
    object. *)
Definition envelope (data : string) : record.t :=
  {| record.key := ""; record.data := "";
     record.Content :=
       stand_in.q ("{'Version':'v2','Indexes':{},'Data':" ++ data ++ "}") |}.

(** The three records of the table example of the specification. *)
Definition three_records : list record.t :=
  [envelope "{'x':1,'y':2}"; envelope "{'x':3}"; envelope "{'y':4,'x':5}"].

(** A block file with two good entries, one of them a ciphertext. *)
Definition good_file : string :=
  stand_in.block_file [("b", stand_in.q "{'x': 1}"); ("a", "enc:{}")].

Definition good_entries : gmap string json :=
  {[ "a" := JStr "enc:{}"; "b" := JStr (stand_in.q "{'x': 1}") ]}.

(** A block file whose second entry is a number. *)
Definition holed_file : string := stand_in.q "{'a':'{}','b':1,'c':'{}'}".

Definition holed_entries : gmap string json :=
  {[ "a" := JStr "{}"; "b" := JNum "1"; "c" := JStr "{}" ]}.

(** A world without files. *)
Definition nothing_on_disk : world :=
  {| Dataset := accounts; files := ∅; reads := [] |}.

(** A block file that holds the same three records, under the keys [r1],
    [r2] and [r3]. *)
Definition three_records_file : string :=
  stand_in.block_file
    (zip ["r1"; "r2"; "r3"] (record.Content <$> three_records)).

(** A text of [n] characters of two bytes each, the letter e with an acute
    accent. *)
Fixpoint accents (n : nat) : string :=
  match n with
  | 0 => ""
  | S n => String (Ascii.ascii_of_nat 195) (String (Ascii.ascii_of_nat 169) (accents n))
  end.

(** A record with indexes, and with its [Data] under a name in lower
    case. *)
Definition indexed (data : string) : record.t :=
  {| record.key := ""; record.data := "";
     record.Content :=
       stand_in.q ("{'Indexes':{'id':'7'},'data':" ++ data ++ ",'Version':'v2'}") |}.

End example.

(** ** Notions the properties are stated with *)

(** What [b.decrypt(str)] returns under the key [cryptoKey]. *)
Definition decrypted `{!Crypto} (cryptoKey str : string) : string :=
  if (0 <? String.length (decrypt cryptoKey str))%nat
  then decrypt cryptoKey str else str.

(** An entry of a block file is bad when its decrypted text does not decode
    as a JSON object, or cannot be indented: the two checks of [readBlock]. *)
Definition bad_entry `{!GoLib, !Crypto} (cryptoKey str : string) : bool :=
  match (Unmarshal_map (decrypted cryptoKey str) None).2,
        json_Indent (decrypted cryptoKey str) with
  | Some _, _ => true
  | None, inr _ => true
  | None, inl _ => false
  end.

(** The world once [records] has emptied both lists of its dataset. *)
Definition cleared (w : world) : world :=
  set_Dataset (dataset.set_BadRecords [] (dataset.set_BadBlocks [] (Dataset w))) w.

(** What one read leaves in [BadBlocks] and in [BadRecords]. *)
Definition diagnostics (r : outcome (list string * option error))
    : list string * list string :=
  match r with
  | Return (_, Some (badBlockError _ blockFile)) => ([blockFile], [])
  | Return (_, Some (badRecordError _ recordID)) => ([], [recordID])
  | _ => ([], [])
  end.

(** The text [readBlock] keeps for an entry [str]: the indented form of its
    decrypted text. *)
Definition formatted `{!GoLib, !Crypto} (cryptoKey str : string) : string :=
  match json_Indent (decrypted cryptoKey str) with
  | inl buf => buf
  | inr _ => ""
  end.

(** The string a decoded block file holds under a key. *)
Definition entry (dataBlock : gmap string json) (k : string) : string :=
  match dataBlock !! k with
  | Some (JStr s) => s
  | _ => ""
  end.

(** The record [records] makes of a text. *)
Definition hydrated (rec : string) : record.t :=
  {| record.key := ""; record.data := ""; record.Content := rec |}.

(** The table [table] builds from the records of a loaded block. *)
Definition table_of `{!GoLib} (records : list record.t) : table.t :=
  block.range_Records records 0 {| block.Indexes := None; block.Data := None |}
    None {| table.Headers := []; table.Rows := [] |}.

(** What a call returns, changed by [f] when it is a block. *)
Definition on_block {A : Type} (f : block.t → A) (r : world * outcome block.t)
    : world * outcome A :=
  (r.1, match r.2 with
        | Return b => Return (f b)
        | Panic msg => Panic msg
        end).

(** A row that is as wide as the headers, with cells of at most 40 bytes. *)
Definition well_shaped (headers : list string) (row : list string) : Prop :=
  length row = length headers
  ∧ Forall (λ c, (String.length c ≤ 40)%nat) row.

(** A record whose document is an object with one member for the field
    [Data], the object with the members [data]; its other members, such as
    [Version] and [Indexes], are left open. *)
Definition Data_object `{!GoLib} (r : record.t) (data : list (string * json))
    : Prop :=
  ∃ before name after,
    json_parse (record.Content r)
    = inl (JObj (before ++ (name, JObj data) :: after))
    ∧ equalFold name "Data" = true
    ∧ Forall (λ kv, equalFold kv.1 "Data" = false) (before ++ after).

(** What one turn of the loop of [table] leaves in [rawV2] and in
    [jsonMap]. *)
Definition decode `{!GoLib} (vars : block.rawV2_t * option (gmap string json))
    (r : record.t) : block.rawV2_t * option (gmap string json) :=
  let rawV2 := (block.Unmarshal_rawV2 (record.Content r) vars.1).1 in
  (rawV2, (store_map (Marshal_map (block.Data rawV2)) vars.2).1).

(** The map [jsonMap] of [table] once the loop has gone through
    [records]. *)
Definition decoded `{!GoLib} (records : list record.t)
    : option (gmap string json) :=
  (foldl decode ({| block.Indexes := None; block.Data := None |}, None)
         records).2.

(** The number of characters of a text in UTF-8: the bytes that do not
    continue a character. *)
Fixpoint characters (s : string) : nat :=
  match s with
  | "" => 0
  | String c s' =>
      let n := Ascii.nat_of_ascii c in
      ((if (128 <=? n)%nat && (n <? 192)%nat then 0 else 1) + characters s')%nat
  end.

(** * Properties *)

(** ** The record index: add, get, delete, size *)

(** C1: after [add(k, v)], [get(k)] on the same block succeeds and the
    record it returns has [v] as its content. *)
Theorem add_get_roundtrip (b : block.t) (k v : string) :
  ∃ r, block.get (block.add b k v) k = (Some r, None)
       ∧ record.Content r = v ∧ record.data r = v.
Proof.
  exists (newRecord k v). unfold block.get, block.add. simpl.
  by rewrite lookup_insert_eq.
Qed.

(** [add] of a key that is already there overwrites its record and leaves
    the number of records as it is. *)
Lemma size_add_present (b : block.t) (k v : string) :
  is_Some (block.recs b !! k) →
  block.size (block.add b k v) = block.size b.
Proof.
  intros [r Hr]. unfold block.size, block.add. simpl.
  rewrite <- (insert_delete_id (block.recs b) k r Hr) at 2.
  rewrite <- (insert_delete_eq (block.recs b) k (newRecord k v)).
  rewrite !map_size_insert_None by apply lookup_delete_eq. done.
Qed.

Lemma size_add_absent (b : block.t) (k v : string) :
  block.recs b !! k = None →
  block.size (block.add b k v) = S (block.size b).
Proof.
  intros Hk. unfold block.size, block.add. simpl.
  by rewrite map_size_insert_None.
Qed.

(** [delete] after [add] of the same key always succeeds, and leaves the
    index without the key. *)
Lemma delete_add (b : block.t) (k v : string) :
  block.delete (block.add b k v) k
  = (block.set_recs (base.delete k (block.recs b)) b, None).
Proof.
  unfold block.delete, block.add. simpl. rewrite lookup_insert_eq.
  unfold block.set_recs. simpl. by rewrite delete_insert_eq.
Qed.

(** C2, as amended: when [k] is not in the block before the [add], [size()]
    after [add(k, v)] and [delete(k)] is what it was before the [add]. *)
Theorem size_add_delete_fresh (b : block.t) (k v : string) :
  block.recs b !! k = None →
  (block.delete (block.add b k v) k).2 = None
  ∧ block.size (block.delete (block.add b k v) k).1 = block.size b.
Proof.
  intros Hk. rewrite delete_add. simpl. split; [done|].
  unfold block.size. simpl. by rewrite delete_id.
Qed.

Lemma size_add_delete_fresh_witness :
  block.size (block.delete (block.add (block.newBlock "d") "a" "{}") "a").1
  = block.size (block.newBlock "d").
Proof.
  apply (size_add_delete_fresh (block.newBlock "d") "a" "{}"). reflexivity.
Defined.

(** When [k] is in the block before the [add], the [add] overwrites it and
    the [delete] removes it: one record fewer than before. *)
Lemma size_add_delete_present (b : block.t) (k v : string) :
  is_Some (block.recs b !! k) →
  S (block.size (block.delete (block.add b k v) k).1) = block.size b.
Proof.
  intros [r Hr]. rewrite delete_add. unfold block.size. simpl.
  rewrite <- (insert_delete_id (block.recs b) k r Hr) at 2.
  by rewrite map_size_insert_None by apply lookup_delete_eq.
Qed.

(** C2, as stated, fails on a block that already holds the key. *)
Lemma size_add_delete_not_restored :
  block.size (block.add (block.newBlock "d") "a" "{}") = 1
  ∧ block.size (block.delete
       (block.add (block.add (block.newBlock "d") "a" "{}") "a" "[]") "a").1 = 0
  ∧ ¬ (∀ (b : block.t) (k v : string),
          block.size (block.delete (block.add b k v) k).1 = block.size b).
Proof.
  split; [reflexivity|]. split; [reflexivity|].
  intros H.
  specialize (H (block.add (block.newBlock "d") "a" "{}") "a" "[]").
  vm_compute in H. discriminate H.
Qed.

(** ** The decryption step *)

(** C7: [block.decrypt] returns what the collaborator's [decrypt] returns
    when that is not empty, and the string it was given when it is empty;
    in both cases it returns a string, never an error, and leaves the world
    as it is. *)
Theorem decrypt_miss_passthrough `{!Crypto} (b : block.t) (s : string) (w : world) :
  (decrypt (dataset.cryptoKey (Dataset w)) s ≠ "" →
     block.decrypt b s w = (w, Return (decrypt (dataset.cryptoKey (Dataset w)) s)))
  ∧ (decrypt (dataset.cryptoKey (Dataset w)) s = "" →
     block.decrypt b s w = (w, Return s)).
Proof.
  unfold block.decrypt, mbind, M_bind, bind, gets, mret, M_ret, ret.
  destruct (decrypt (dataset.cryptoKey (Dataset w)) s) as [|c dec]; simpl.
  - split; [intros Hne; by destruct Hne | done].
  - split; [done | intros Heq; discriminate Heq].
Qed.

Lemma decrypt_miss_passthrough_witness :
  block.decrypt (block.newBlock "d") "enc:{}"
    (mkWorld (dataset.mk "/db" "d" "key" [] []) ∅ [])
  = (mkWorld (dataset.mk "/db" "d" "key" [] []) ∅ [], Return "{}")
  ∧ block.decrypt (block.newBlock "d") "{}"
      (mkWorld (dataset.mk "/db" "d" "key" [] []) ∅ [])
    = (mkWorld (dataset.mk "/db" "d" "key" [] []) ∅ [], Return "{}").
Proof.
  split.
  - destruct (decrypt_miss_passthrough (block.newBlock "d") "enc:{}"
                (mkWorld (dataset.mk "/db" "d" "key" [] []) ∅ [])) as [Hhit _].
    apply Hhit. vm_compute. discriminate.
  - destruct (decrypt_miss_passthrough (block.newBlock "d") "{}"
                (mkWorld (dataset.mk "/db" "d" "key" [] []) ∅ [])) as [_ Hmiss].
    apply Hmiss. reflexivity.
Defined.

(** ** The model envelope *)

(** C8: after [wrap(m)] and the envelope's [BeforeInsert], the envelope
    holds the model as its own [BeforeInsert] left it, its [Indexes] are the
    indexes of the schema of that model, and the error is the model's. *)
Theorem envelope_BeforeInsert_captures_indexes `{!Constants} {any T : Type}
    `{!Model any T} (m : T) :
  model.BeforeInsert (wrap m)
  = ({| model.Version := RecVersion;
        model.Indexes := indexes (GetSchema (BeforeInsert m).1);
        model.Data := (BeforeInsert m).1 |},
     (BeforeInsert m).2).
Proof.
  unfold model.BeforeInsert, wrap. simpl.
  by destruct (BeforeInsert m) as [d err].
Qed.

(** On the example model, whose hook stamps [CreatedAt] and whose schema
    indexes it: the envelope of a fresh model holds the stamp, not zero. *)
Example envelope_captures_stamp (now : time.Time) :
  model.Indexes
    (model.BeforeInsert
       (wrap {| example.clock := now;
                example.base := TimeStampedModel.mk (time.mk 0 0) (time.mk 0 0) |})).1
    !! "CreatedAt"
  = Some now.
Proof. unfold model.BeforeInsert, wrap. simpl. apply lookup_singleton_eq. Qed.

(** ** The time-stamped base model *)

(** C10: [BeforeInsert] returns no error and sets [UpdatedAt] to the stamp
    time; it sets [CreatedAt] to the stamp time when [CreatedAt] was zero,
    so that the two are then equal, and leaves [CreatedAt] as it is
    otherwise.  After a call on a fresh model at a stamp time that is not
    zero, a second call keeps [CreatedAt] and refreshes [UpdatedAt]. *)
Theorem TimeStampedModel_BeforeInsert_stamps (stampTime : time.Time)
    (m : TimeStampedModel.t) :
  (TimeStampedModel.BeforeInsert stampTime m).2 = None
  ∧ TimeStampedModel.UpdatedAt (TimeStampedModel.BeforeInsert stampTime m).1 = stampTime
  ∧ (time.IsZero (TimeStampedModel.CreatedAt m) = true →
       TimeStampedModel.CreatedAt (TimeStampedModel.BeforeInsert stampTime m).1
       = stampTime
       ∧ TimeStampedModel.CreatedAt (TimeStampedModel.BeforeInsert stampTime m).1
         = TimeStampedModel.UpdatedAt (TimeStampedModel.BeforeInsert stampTime m).1)
  ∧ (time.IsZero (TimeStampedModel.CreatedAt m) = false →
       TimeStampedModel.CreatedAt (TimeStampedModel.BeforeInsert stampTime m).1
       = TimeStampedModel.CreatedAt m)
  ∧ (∀ later : time.Time,
       time.IsZero (TimeStampedModel.CreatedAt m) = true →
       time.IsZero stampTime = false →
       (TimeStampedModel.BeforeInsert later
          (TimeStampedModel.BeforeInsert stampTime m).1).1
       = {| TimeStampedModel.CreatedAt := stampTime;
            TimeStampedModel.UpdatedAt := later |}).
Proof.
  unfold TimeStampedModel.BeforeInsert.
  destruct (time.IsZero (TimeStampedModel.CreatedAt m)) eqn:Hzero; simpl.
  - repeat split; try done.
    intros later _ Hstamp. by rewrite Hstamp.
  - repeat split; try done.
Qed.

Lemma TimeStampedModel_BeforeInsert_stamps_witness :
  TimeStampedModel.CreatedAt
    (TimeStampedModel.BeforeInsert (time.mk 63800000000 5)
       (TimeStampedModel.mk (time.mk 0 0) (time.mk 0 0))).1
  = time.mk 63800000000 5
  ∧ TimeStampedModel.CreatedAt
      (TimeStampedModel.BeforeInsert (time.mk 63800000900 0)
         (TimeStampedModel.mk (time.mk 63800000000 5) (time.mk 63800000000 5))).1
    = time.mk 63800000000 5
  ∧ (TimeStampedModel.BeforeInsert (time.mk 63800000900 0)
       (TimeStampedModel.BeforeInsert (time.mk 63800000000 5)
          (TimeStampedModel.mk (time.mk 0 0) (time.mk 0 0))).1).1
    = TimeStampedModel.mk (time.mk 63800000000 5) (time.mk 63800000900 0).
Proof.
  split; [|split].
  - destruct (TimeStampedModel_BeforeInsert_stamps (time.mk 63800000000 5)
                (TimeStampedModel.mk (time.mk 0 0) (time.mk 0 0)))
      as (_ & _ & Hfirst & _).
    apply Hfirst. reflexivity.
  - destruct (TimeStampedModel_BeforeInsert_stamps (time.mk 63800000900 0)
                (TimeStampedModel.mk (time.mk 63800000000 5) (time.mk 63800000000 5)))
      as (_ & _ & _ & Hlater & _).
    apply Hlater. reflexivity.
  - destruct (TimeStampedModel_BeforeInsert_stamps (time.mk 63800000000 5)
                (TimeStampedModel.mk (time.mk 0 0) (time.mk 0 0)))
      as (_ & _ & _ & _ & Hboth).
    apply Hboth; reflexivity.
Defined.

(** ** Hydration *)

Ltac run :=
  unfold mbind, M_bind, bind, mret, M_ret, ret, gets, modify, panic in *.

Section hydration.
Context `{!GoLib, !Crypto}.

Lemma decrypt_decrypted (b : block.t) (str : string) (w : world) :
  block.decrypt b str w
  = (w, Return (decrypted (dataset.cryptoKey (Dataset w)) str)).
Proof.
  unfold block.decrypt, decrypted. run.
  by destruct (0 <? String.length _)%nat.
Qed.

(** Whether [json.Unmarshal] reports an error does not depend on what the
    map it decodes into holds. *)
Lemma Unmarshal_map_error (data : string) (m m' : option (gmap string json)) :
  (Unmarshal_map data m).2 = (Unmarshal_map data m').2.
Proof.
  unfold Unmarshal_map. destruct (json_parse data) as [v|e]; [|done].
  by destruct v.
Qed.

(** The loop of [readBlock] leaves the world as it is. *)
Lemma range_recordKeys_world (b : block.t) dataBlock recordKeys record result w :
  (block.range_recordKeys b dataBlock recordKeys record result w).1 = w.
Proof.
  revert record result.
  induction recordKeys as [|k ks IH]; intros record result; simpl; [done|].
  destruct (default ∅ dataBlock !! k) as [[| | |s| |]|]; try done.
  run. rewrite decrypt_decrypted.
  destruct (Unmarshal_map _ record) as [record' [e|]]; [done|].
  destruct (json_Indent _) as [buf|e]; [|done].
  apply IH.
Qed.

(** [readBlock] reads the block file once and writes nothing else. *)
Lemma readBlock_world (b : block.t) (w : world) :
  (block.readBlock b w).1
  = {| Dataset := Dataset w; files := files w;
       reads := reads w ++ [block.blockFile b w] |}.
Proof.
  unfold block.readBlock, ReadFile. run.
  destruct (files w !! block.blockFile b w) as [data|]; [|done].
  destruct (Unmarshal_map data None) as [dataBlock [e|]]; [done|].
  apply range_recordKeys_world.
Qed.

(** [records] in terms of [readBlock]: both lists are emptied, the block is
    read, and the lists are filled from what the read returned. *)
Lemma records_unfold (b : block.t) (w : world) :
  block.records b w
  = let r := block.readBlock b (cleared w) in
    (set_Dataset
       (dataset.set_BadRecords (diagnostics r.2).2
          (dataset.set_BadBlocks (diagnostics r.2).1 (Dataset w))) r.1,
     match r.2 with
     | Return (recs, None) =>
         Return (map (λ rec, {| record.key := ""; record.data := "";
                                record.Content := rec |}) recs)
     | Return (_, Some _) => Return []
     | Panic msg => Panic msg
     end).
Proof.
  unfold block.records. run. simpl.
  change (block.readBlock b _) with (block.readBlock b (cleared w)).
  pose proof (readBlock_world b (cleared w)) as Hw.
  destruct (block.readBlock b (cleared w)) as [w' [[recs [err|]]|msg]];
    simpl in *; subst w'; try done.
  by destruct err.
Qed.

End hydration.

Section hydration_properties.
Context `{!GoLib, !Crypto}.

(** C6: a read empties [BadBlocks] and [BadRecords] and fills them from
    what this read returned: the result does not depend on what the two
    lists held before, and afterwards they hold the diagnostics of this
    read alone. *)
Theorem records_resets_diagnostics (b : block.t) (w : world)
    (oldBlocks oldRecords : list string) :
  block.records b
    (set_Dataset (dataset.set_BadRecords oldRecords
                    (dataset.set_BadBlocks oldBlocks (Dataset w))) w)
  = block.records b w
  ∧ dataset.BadBlocks (Dataset (block.records b w).1)
    = (diagnostics (block.readBlock b (cleared w)).2).1
  ∧ dataset.BadRecords (Dataset (block.records b w).1)
    = (diagnostics (block.readBlock b (cleared w)).2).2.
Proof.
  rewrite !records_unfold. split; [reflexivity|]. simpl. done.
Qed.

(** When the bytes of the block file do not decode as a JSON object, the
    read records the file in [BadBlocks] and yields no records. *)
Lemma records_bad_block (b : block.t) (w : world) (data : string) (err : error) :
  files w !! block.blockFile b w = Some data →
  (Unmarshal_map data None).2 = Some err →
  block.records b w
  = ({| Dataset := dataset.set_BadRecords []
                     (dataset.set_BadBlocks [block.blockFile b w] (Dataset w));
        files := files w;
        reads := reads w ++ [block.blockFile b w] |},
     Return []).
Proof.
  intros Hfile Herr. rewrite records_unfold.
  assert (block.readBlock b (cleared w)
          = ({| Dataset := Dataset (cleared w); files := files w;
                reads := reads w ++ [block.blockFile b w] |},
             Return ([], Some (badBlockError
                (Error err ++ " - " ++ block.blockFile b w)
                (block.blockFile b w))))) as ->.
  { unfold block.readBlock, ReadFile. run.
    change (block.blockFile b (cleared w)) with (block.blockFile b w).
    change (files (cleared w)) with (files w). rewrite Hfile.
    destruct (Unmarshal_map data None) as [m [e|]]; simpl in Herr; [|done].
    by injection Herr as ->. }
  reflexivity.
Qed.

(** The first bad key of a list of keys. *)
Lemma first_bad_split (P : string → bool) (keys : list string) :
  (∃ k, k ∈ keys ∧ P k = true) →
  ∃ (pre : list string) (k0 : string) (post : list string),
    keys = (pre ++ k0 :: post)%list ∧ Forall (λ k, P k = false) pre ∧ P k0 = true.
Proof.
  induction keys as [|k ks IH]; intros (k' & Hin & Hbad).
  - by apply elem_of_nil in Hin.
  - destruct (P k) eqn:Hk.
    + exists [], k, ks. by repeat split.
    + apply elem_of_cons in Hin as [->|Hin]; [congruence|].
      destruct IH as (pre & k0 & post & -> & Hpre & Hk0); [by eauto|].
      exists (k :: pre), k0, post. repeat split; [|done].
      by constructor.
Qed.

(** The loop of [readBlock] stops at the first bad entry: it returns a
    [badRecordError] for its key, together with the texts of the entries
    before it. *)
Lemma range_recordKeys_stops (b : block.t) (dataBlock : gmap string json)
    (pre post : list string) (k0 : string) record result (w : world) :
  (∀ k, k ∈ pre → ∃ s, dataBlock !! k = Some (JStr s)
                       ∧ bad_entry (dataset.cryptoKey (Dataset w)) s = false) →
  (∃ s, dataBlock !! k0 = Some (JStr s)
        ∧ bad_entry (dataset.cryptoKey (Dataset w)) s = true) →
  ∃ result' msg,
    block.range_recordKeys b (Some dataBlock) (pre ++ k0 :: post)%list record result w
    = (w, Return (result', Some (badRecordError msg k0)))
    ∧ length result' = length result + length pre.
Proof.
  intros Hpre (s0 & Hk0 & Hbad). revert record result.
  induction pre as [|k pre IH]; intros record result; simpl.
  - rewrite Hk0. run. rewrite decrypt_decrypted.
    unfold bad_entry in Hbad.
    rewrite (Unmarshal_map_error _ None record) in Hbad.
    destruct (Unmarshal_map _ record) as [record' [e|]]; simpl in Hbad.
    + eexists _, _. split; [done|]. lia.
    + destruct (json_Indent _) as [buf|e]; [done|].
      eexists _, _. split; [done|]. lia.
  - destruct (Hpre k) as (s & Hk & Hgood); [apply list_elem_of_here|].
    rewrite Hk. run. rewrite decrypt_decrypted.
    unfold bad_entry in Hgood.
    rewrite (Unmarshal_map_error _ None record) in Hgood.
    destruct (Unmarshal_map _ record) as [record' [e|]]; simpl in Hgood; [done|].
    destruct (json_Indent _) as [buf|e]; [|done].
    destruct (IH (λ k' Hk', Hpre k' (list_elem_of_further _ _ _ Hk'))
                 record' (result ++ [buf])%list) as (result' & msg & Hrun & Hlen).
    exists result', msg. split; [done|].
    rewrite Hlen, length_app. simpl. lia.
Qed.

Lemma elem_of_orderMapKeys {V : Type} (m : gmap string V) (k : string) :
  k ∈ orderMapKeys m ↔ is_Some (m !! k).
Proof.
  unfold orderMapKeys. rewrite merge_sort_Permutation.
  rewrite list_elem_of_fmap. split.
  - intros ([k' v] & -> & Hin). apply elem_of_map_to_list in Hin. by exists v.
  - intros [v Hv]. exists (k, v). split; [done|]. by apply elem_of_map_to_list.
Qed.

Lemma orderMapKeys_sorted {V : Type} (m : gmap string V) :
  StronglySorted String.le (orderMapKeys m).
Proof. apply StronglySorted_merge_sort; apply _. Qed.

End hydration_properties.

Section first_bad_record.
Context `{!GoLib, !Crypto}.

(** C5: when the block file decodes as an object of strings and some entry
    is bad, the read records in [BadRecords] the key of the first bad entry
    in the order of the keys, and only that key; the loop stops there,
    having collected only the entries before it; and the read yields no
    records. *)
Theorem records_first_bad_record (b : block.t) (w : world) (data : string)
    (dataBlock : gmap string json) :
  files w !! block.blockFile b w = Some data →
  Unmarshal_map data None = (Some dataBlock, None) →
  (∀ k v, dataBlock !! k = Some v → ∃ s, v = JStr s) →
  (∃ k s, dataBlock !! k = Some (JStr s)
          ∧ bad_entry (dataset.cryptoKey (Dataset w)) s = true) →
  ∃ (k0 s0 : string) (pre post result : list string) (msg : string),
    dataBlock !! k0 = Some (JStr s0)
    ∧ bad_entry (dataset.cryptoKey (Dataset w)) s0 = true
    ∧ (∀ k s, dataBlock !! k = Some (JStr s) →
              bad_entry (dataset.cryptoKey (Dataset w)) s = true →
              String.le k0 k)
    ∧ orderMapKeys dataBlock = (pre ++ k0 :: post)%list
    ∧ (block.readBlock b (cleared w)).2
      = Return (result, Some (badRecordError msg k0))
    ∧ length result = length pre
    ∧ block.records b w
      = ({| Dataset := dataset.set_BadRecords [k0]
                         (dataset.set_BadBlocks [] (Dataset w));
            files := files w;
            reads := reads w ++ [block.blockFile b w] |},
         Return []).
Proof.
  intros Hfile Hdecode Hstrings (kb & sb & Hkb & Hbad).
  set (key := dataset.cryptoKey (Dataset w)) in *.
  set (P := λ k, match dataBlock !! k with
                 | Some (JStr s) => bad_entry key s
                 | _ => false
                 end).
  destruct (first_bad_split P (orderMapKeys dataBlock))
    as (pre & k0 & post & Hkeys & Hpre & Hk0).
  { exists kb. split; [apply elem_of_orderMapKeys; by eexists|].
    unfold P. by rewrite Hkb. }
  assert (∃ s0, dataBlock !! k0 = Some (JStr s0) ∧ bad_entry key s0 = true)
    as (s0 & Hs0 & Hbad0).
  { unfold P in Hk0. destruct (dataBlock !! k0) as [[| | |s| |]|]; try done.
    by exists s. }
  assert (∀ k, k ∈ pre → ∃ s, dataBlock !! k = Some (JStr s)
                              ∧ bad_entry key s = false) as Hgood.
  { intros k Hin.
    assert (is_Some (dataBlock !! k)) as [v Hv].
    { apply elem_of_orderMapKeys. rewrite Hkeys. apply elem_of_app. by left. }
    destruct (Hstrings k v Hv) as [s ->]. exists s. split; [done|].
    rewrite Forall_forall in Hpre. specialize (Hpre k Hin).
    unfold P in Hpre. by rewrite Hv in Hpre. }
  assert (block.readBlock b (cleared w)
          = ({| Dataset := Dataset (cleared w); files := files w;
                reads := reads w ++ [block.blockFile b w] |},
             (block.range_recordKeys b (Some dataBlock) (pre ++ k0 :: post)%list
                None []
                {| Dataset := Dataset (cleared w); files := files w;
                   reads := reads w ++ [block.blockFile b w] |}).2)) as Hread.
  { unfold block.readBlock, ReadFile. run.
    change (block.blockFile b (cleared w)) with (block.blockFile b w).
    change (files (cleared w)) with (files w). rewrite Hfile, Hdecode.
    simpl. rewrite Hkeys.
    pose proof (range_recordKeys_world b (Some dataBlock)
      (pre ++ k0 :: post)%list None []
      {| Dataset := Dataset (cleared w); files := files w;
         reads := reads w ++ [block.blockFile b w] |}) as Hw.
    destruct (block.range_recordKeys _ _ _ _ _ _) as [w' r]. simpl in Hw.
    by subst w'. }
  destruct (range_recordKeys_stops b dataBlock pre post k0 None []
              {| Dataset := Dataset (cleared w); files := files w;
                 reads := reads w ++ [block.blockFile b w] |})
    as (result & msg & Hrun & Hlen); [done|by exists s0|].
  rewrite Hrun in Hread. simpl in Hread, Hlen.
  exists k0, s0, pre, post, result, msg.
  split; [done|]. split; [done|]. split; [|split; [done|]].
  - intros k s Hk Hkbad.
    assert (k ∈ orderMapKeys dataBlock) as Hin
      by (apply elem_of_orderMapKeys; by eexists).
    pose proof (orderMapKeys_sorted dataBlock) as Hsorted.
    rewrite Hkeys in Hin, Hsorted.
    apply elem_of_app in Hin as [Hin|Hin].
    + destruct (Hgood k Hin) as (s' & Hk' & Hgood').
      rewrite Hk in Hk'. injection Hk' as <-. congruence.
    + apply StronglySorted_app in Hsorted as (_ & _ & Hsorted).
      apply StronglySorted_cons in Hsorted as [Hle _].
      apply elem_of_cons in Hin as [->|Hin]; [done|].
      rewrite Forall_forall in Hle. by apply Hle.
  - split; [by rewrite Hread|]. split; [done|].
    rewrite records_unfold, Hread. reflexivity.
Qed.

End first_bad_record.

Lemma records_first_bad_record_witness :
  ∃ k0 : string,
    block.records example.b0 (example.on_disk example.mixed_file)
    = ({| Dataset := dataset.set_BadRecords [k0]
                       (dataset.set_BadBlocks [] example.accounts);
          files := {[ "/db/accounts/b0.json" := example.mixed_file ]};
          reads := ["/db/accounts/b0.json"] |},
       Return []).
Proof.
  destruct (records_first_bad_record example.b0
              (example.on_disk example.mixed_file)
              example.mixed_file example.mixed_entries)
    as (k0 & _ & _ & _ & _ & _ & _ & _ & _ & _ & _ & _ & Hrecords).
  - vm_compute. reflexivity.
  - vm_compute. reflexivity.
  - intros k v Hkv. apply elem_of_map_to_list in Hkv.
    vm_compute map_to_list in Hkv.
    repeat (apply elem_of_cons in Hkv as [Hkv|Hkv];
            [injection Hkv as -> ->; by eexists|]).
    by apply elem_of_nil in Hkv.
  - exists "b", "not valid json". split; vm_compute; reflexivity.
  - exists k0. exact Hrecords.
Defined.

(** The same read, run: the key recorded is [b], although [c] is bad too. *)
Example records_mixed_file :
  block.records example.b0 (example.on_disk example.mixed_file)
  = ({| Dataset := dataset.set_BadRecords ["b"] example.accounts;
        files := {[ "/db/accounts/b0.json" := example.mixed_file ]};
        reads := ["/db/accounts/b0.json"] |},
     Return []).
Proof. vm_compute. reflexivity. Qed.

(** ** Loading once *)

Section loading.
Context `{!GoLib, !Crypto}.

(** A block that holds records is not read again. *)
Lemma loadRecords_loaded (b : block.t) (w : world) :
  block.Records b ≠ [] → block.loadRecords b w = (w, Return b).
Proof.
  intros Hloaded. unfold block.loadRecords.
  by destruct (block.Records b).
Qed.

(** A block that holds no records is read, whether or not it was read
    before. *)
Lemma loadRecords_reads (b : block.t) (w : world) :
  block.Records b = [] →
  reads (block.loadRecords b w).1 = (reads w ++ [block.blockFile b w])%list.
Proof.
  intros Hempty. unfold block.loadRecords. rewrite Hempty. simpl. run.
  rewrite records_unfold. simpl. rewrite readBlock_world.
  by destruct (block.readBlock b (cleared w)).2 as [[recs [err|]]|msg].
Qed.

(** When the first hydration yields a record, the second one neither reads
    the file nor changes the block. *)
Lemma loadRecords_twice_loaded (b b' : block.t) (w w' : world) :
  block.loadRecords b w = (w', Return b') →
  block.Records b' ≠ [] →
  block.loadRecords b' w' = (w', Return b').
Proof. intros _. apply loadRecords_loaded. Qed.

End loading.

(** C3 at a block whose file holds no entries: the second [RecordCount]
    reads the file again, so the file is read twice. *)
Theorem RecordCount_twice_reads_twice :
  (r ← block.RecordCount example.b0; block.RecordCount r.1)
    (example.on_disk "{}")
  = ({| Dataset := example.accounts;
        files := {[ "/db/accounts/b0.json" := "{}" ]};
        reads := ["/db/accounts/b0.json"; "/db/accounts/b0.json"] |},
     Return (example.b0, 0)).
Proof. vm_compute. reflexivity. Qed.

(** ** Blocks that are not objects of strings *)

(** C4 at a block file whose entry is a number: the read panics, and
    [BadBlocks] stays empty. *)
Theorem records_panics_on_number_entry :
  block.records example.b0 (example.on_disk (stand_in.q "{'a':1}"))
  = ({| Dataset := example.accounts;
        files := {[ "/db/accounts/b0.json" := stand_in.q "{'a':1}" ]};
        reads := ["/db/accounts/b0.json"] |},
     Panic "interface conversion: interface {} is not string").
Proof. vm_compute. reflexivity. Qed.

(** On the same bytes, [UnmarshalJSON] returns an error. *)
Example UnmarshalJSON_number_entry :
  ∃ err, block.UnmarshalJSON example.b0 (stand_in.q "{'a':1}")
         = (example.b0, Some err).
Proof. eexists. vm_compute. reflexivity. Qed.

(** Bytes that are not JSON at all make a bad block. *)
Example records_not_json :
  block.records example.b0 (example.on_disk "not json")
  = ({| Dataset := dataset.set_BadBlocks ["/db/accounts/b0.json"] example.accounts;
        files := {[ "/db/accounts/b0.json" := "not json" ]};
        reads := ["/db/accounts/b0.json"] |},
     Return []).
Proof. vm_compute. reflexivity. Qed.

(** ** The table projection *)

Lemma length_substring_0 (n : nat) (s : string) :
  (n ≤ String.length s)%nat → String.length (String.substring 0 n s) = n.
Proof.
  revert n. induction s as [|c s IH]; intros [|n] Hn; simpl in *; try done; try lia.
  f_equal. apply IH. lia.
Qed.

Lemma substring_0_prefix (n : nat) (s : string) :
  ∃ rest, s = String.substring 0 n s ++ rest.
Proof.
  revert n. induction s as [|c s IH]; intros [|n]; simpl.
  - by exists "".
  - by exists "".
  - by eexists.
  - destruct (IH n) as [rest Hrest]. exists rest.
    change (String c s = String c (String.substring 0 n s ++ rest)).
    by f_equal.
Qed.

(** A cell is the text [%v] prints for the value under the key when that
    text has at most 40 bytes, and else its first 40 bytes. *)
Lemma cell_cut (jsonMap : option (gmap string json)) (key : string) :
  let val := Sprintf_v (default JNull (default ∅ jsonMap !! key)) in
  ((String.length val ≤ 40)%nat → block.cell jsonMap key = val)
  ∧ ((40 < String.length val)%nat →
     String.length (block.cell jsonMap key) = 40%nat
     ∧ ∃ rest, val = block.cell jsonMap key ++ rest).
Proof.
  intros val. unfold block.cell. fold val.
  destruct (40 <? String.length val)%nat eqn:Hlong.
  - apply Nat.ltb_lt in Hlong. split; [lia|]. intros _. split.
    + apply length_substring_0. lia.
    + apply substring_0_prefix.
  - apply Nat.ltb_ge in Hlong. split; [done|lia].
Qed.

(** A key the decoded map has nothing for is shown as [<nil>]. *)
Lemma cell_absent (jsonMap : option (gmap string json)) (key : string) :
  default ∅ jsonMap !! key = None → block.cell jsonMap key = "<nil>".
Proof. intros Habsent. unfold block.cell. by rewrite Habsent. Qed.

Section table_loop.
Context `{!GoLib}.

Lemma equalFold_length (a b : string) :
  equalFold a b = true → String.length a = String.length b.
Proof.
  revert b. induction a as [|x a IH]; intros [|y b]; simpl; try done.
  intros [_ Hrest]%andb_true_iff. f_equal. by apply IH.
Qed.

(** Members of other names leave the field [Data] as it is. *)
Lemma foldl_store_field_other (members : list (string * json))
    (r : block.rawV2_t * option error) :
  Forall (λ kv, equalFold kv.1 "Data" = false) members →
  block.Data (foldl block.store_field r members).1 = block.Data r.1.
Proof.
  revert r. induction members as [|kv members IH]; intros r Hother; [done|].
  apply Forall_cons in Hother as [Hkv Hother]. simpl. rewrite IH by done.
  unfold block.store_field. rewrite Hkv.
  destruct (equalFold kv.1 "Indexes"); [|done].
  by destruct (store_map kv.2 (block.Indexes r.1)).
Qed.

(** One turn of the loop of [table] on a record with a [Data] object: the
    members of the object are stored into the map [rawV2.Data] already
    holds. *)
Lemma decode_Data_object (r : record.t) (data : list (string * json))
    (vars : block.rawV2_t * option (gmap string json)) :
  Data_object r data →
  ∃ indexes,
    decode vars r
    = let d := foldl (λ acc kv, <[kv.1 := kv.2]> acc)
                     (default ∅ (block.Data vars.1)) data in
      ({| block.Indexes := indexes; block.Data := Some d |},
       (store_map (Marshal_map (Some d)) vars.2).1).
Proof.
  intros (before & name & after & Hdoc & Hname & Hother).
  apply Forall_app in Hother as [Hbefore Hafter].
  unfold decode, block.Unmarshal_rawV2. rewrite Hdoc.
  rewrite foldl_app. simpl.
  set (r0 := foldl block.store_field (vars.1, None) before).
  assert (block.Data r0.1 = block.Data vars.1) as Hr0
    by (unfold r0; by rewrite foldl_store_field_other).
  assert (equalFold name "Indexes" = false) as Hindexes.
  { destruct (equalFold name "Indexes") eqn:Heq; [|done].
    apply equalFold_length in Hname, Heq. simpl in *. congruence. }
  set (r1 := block.store_field r0 (name, JObj data)).
  assert (block.Data r1.1
          = Some (foldl (λ acc kv, <[kv.1 := kv.2]> acc)
                        (default ∅ (block.Data vars.1)) data)) as Hr1.
  { unfold r1, block.store_field. simpl. rewrite Hindexes, Hname. simpl.
    by rewrite Hr0. }
  pose proof (foldl_store_field_other after r1 Hafter) as Hr2.
  rewrite Hr1 in Hr2.
  destruct (foldl block.store_field r1 after).1 as [indexes d] eqn:Hend.
  simpl in Hr2. subst d. by exists indexes.
Qed.

(** One turn of the loop of [table]. *)
Lemma range_Records_cons (r : record.t) (records : list record.t) (i : nat)
    (rawV2 : block.rawV2_t) (jsonMap : option (gmap string json)) (t : table.t) :
  block.range_Records (r :: records) i rawV2 jsonMap t
  = let vars := decode (rawV2, jsonMap) r in
    let headers := if (i =? 0)%nat then orderMapKeys (default ∅ vars.2)
                   else table.Headers t in
    block.range_Records records (S i) vars.1 vars.2
      {| table.Headers := headers;
         table.Rows := (table.Rows t ++ [block.cell vars.2 <$> headers])%list |}.
Proof.
  simpl. unfold decode. simpl.
  destruct (block.Unmarshal_rawV2 _ rawV2) as [rawV2' e1]. simpl.
  destruct (store_map _ jsonMap) as [jsonMap' e2]. simpl.
  by destruct (i =? 0)%nat.
Qed.

(** After its first turn the loop keeps the headers, and the row of a
    record is made of the cells of the map decoded up to that record. *)
Lemma range_Records_rows (records : list record.t) (i : nat)
    (rawV2 : block.rawV2_t) (jsonMap : option (gmap string json)) (t : table.t) :
  table.Headers (block.range_Records records (S i) rawV2 jsonMap t)
  = table.Headers t
  ∧ table.Rows (block.range_Records records (S i) rawV2 jsonMap t)
    = (table.Rows t
       ++ ((λ n, block.cell (foldl decode (rawV2, jsonMap)
                                   (take (S n) records)).2
                 <$> table.Headers t)
           <$> seq 0 (length records)))%list.
Proof.
  revert i rawV2 jsonMap t.
  induction records as [|r records IH]; intros i rawV2 jsonMap t.
  - simpl. by rewrite app_nil_r.
  - rewrite range_Records_cons. cbv zeta.
    change (S i =? 0)%nat with false. cbv iota.
    destruct (IH (S i) (decode (rawV2, jsonMap) r).1 (decode (rawV2, jsonMap) r).2
      {| table.Headers := table.Headers t;
         table.Rows := (table.Rows t
                        ++ [block.cell (decode (rawV2, jsonMap) r).2
                            <$> table.Headers t])%list |}) as [-> ->].
    split; [done|]. simpl. rewrite <- app_assoc. simpl.
    do 2 f_equal. rewrite <- fmap_S_seq, <- list_fmap_compose.
    apply list_fmap_ext. intros _ n _. reflexivity.
Qed.

(** The rows of a table: the [i]-th is made of the cells of the map decoded
    from the first [i + 1] records. *)
Lemma table_of_rows (records : list record.t) (i : nat) (row : list string) :
  table.Rows (table_of records) !! i = Some row →
  row = block.cell (decoded (take (S i) records))
        <$> table.Headers (table_of records).
Proof.
  unfold table_of, decoded. destruct records as [|r records]; [done|].
  rewrite range_Records_cons. cbv zeta. change (0 =? 0)%nat with true. cbv iota.
  set (vars0 := ({| block.Indexes := None; block.Data := None |}, None)).
  destruct (range_Records_rows records 0 (decode vars0 r).1 (decode vars0 r).2
    {| table.Headers := orderMapKeys (default ∅ (decode vars0 r).2);
       table.Rows := (table.Rows {| table.Headers := []; table.Rows := [] |}
                      ++ [block.cell (decode vars0 r).2
                          <$> orderMapKeys (default ∅ (decode vars0 r).2)])%list |})
    as [-> ->].
  simpl. destruct i as [|i]; simpl.
  - by intros [= <-].
  - rewrite list_lookup_fmap. intros Hrow.
    destruct (seq 0 (length records) !! i) as [n|] eqn:Hn; [|done].
    apply lookup_seq in Hn as [-> _]. simpl in Hrow. injection Hrow as <-.
    reflexivity.
Qed.

End table_loop.

(** C9, as amended: for three records whose [Data] objects are
    [{"x":1,"y":2}], [{"x":3}] and [{"y":4,"x":5}], whatever their other
    members are, the headers are [x] and [y] and the row of the second
    record has [3] under [x].  In every table the row of a record is made
    of the cells of the map decoded up to that record, one for every
    header; a key that map has nothing for is shown as [<nil>]; and a cell
    is the text [%v] prints when that has at most 40 bytes, and else
    exactly its first 40 bytes. *)
Theorem table_projection_example `{!GoLib, !Crypto} (b : block.t) (w : world)
    (r1 r2 r3 : record.t) :
  block.Records b = [r1; r2; r3] →
  Data_object r1 [("x", JNum "1"); ("y", JNum "2")] →
  Data_object r2 [("x", JNum "3")] →
  Data_object r3 [("y", JNum "4"); ("x", JNum "5")] →
  (∃ t, block.table b w = (w, Return (b, t))
        ∧ table.Headers t = ["x"; "y"]
        ∧ ∃ y, table.Rows t !! 1 = Some ["3"; y])
  ∧ (∀ b0 w0 b' t i row,
       (block.table b0 w0).2 = Return (b', t) →
       table.Rows t !! i = Some row →
       row = block.cell (decoded (take (S i) (block.Records b')))
             <$> table.Headers t)
  ∧ (∀ jsonMap key,
       default ∅ jsonMap !! key = None → block.cell jsonMap key = "<nil>")
  ∧ (∀ jsonMap key,
       let val := Sprintf_v (default JNull (default ∅ jsonMap !! key)) in
       ((String.length val ≤ 40)%nat → block.cell jsonMap key = val)
       ∧ ((40 < String.length val)%nat →
          String.length (block.cell jsonMap key) = 40%nat
          ∧ ∃ rest, val = block.cell jsonMap key ++ rest)).
Proof.
  intros Hrecords H1 H2 H3.
  split; [|split; [|split; [apply cell_absent | apply cell_cut]]].
  - unfold block.table. run.
    rewrite loadRecords_loaded by (by rewrite Hrecords).
    rewrite Hrecords. eexists. split; [reflexivity|].
    rewrite !range_Records_cons. cbv zeta.
    destruct (decode_Data_object r1 _
                ({| block.Indexes := None; block.Data := None |}, None) H1)
      as [ix1 ->]. cbv zeta.
    match goal with
    | |- context [decode ?vars r2] =>
        destruct (decode_Data_object r2 _ vars H2) as [ix2 ->]
    end. cbv zeta.
    match goal with
    | |- context [decode ?vars r3] =>
        destruct (decode_Data_object r3 _ vars H3) as [ix3 ->]
    end.
    split; [vm_compute; reflexivity|].
    eexists. vm_compute. reflexivity.
  - intros b0 w0 b' t i row Htable Hrow.
    unfold block.table in Htable. revert Htable. run.
    destruct (block.loadRecords b0 w0) as [w' [b''|msg]]; simpl; [|done].
    intros [= <- <-]. by apply table_of_rows.
Qed.

Lemma table_projection_example_witness :
  ∃ t, block.table
         (block.set_Records
            [example.indexed "{'x':1,'y':2}"; example.envelope "{'x':3}";
             example.indexed "{'y':4,'x':5}"] example.b0)
         (example.on_disk "{}")
       = (example.on_disk "{}",
          Return (block.set_Records
                    [example.indexed "{'x':1,'y':2}"; example.envelope "{'x':3}";
                     example.indexed "{'y':4,'x':5}"] example.b0, t))
       ∧ table.Headers t = ["x"; "y"]
       ∧ ∃ y, table.Rows t !! 1 = Some ["3"; y].
Proof.
  destruct (table_projection_example
              (block.set_Records
                 [example.indexed "{'x':1,'y':2}"; example.envelope "{'x':3}";
                  example.indexed "{'y':4,'x':5}"] example.b0)
              (example.on_disk "{}")
              (example.indexed "{'x':1,'y':2}") (example.envelope "{'x':3}")
              (example.indexed "{'y':4,'x':5}")) as [Htable _].
  - reflexivity.
  - exists [("Indexes", JObj [("id", JStr "7")])], "data", [("Version", JStr "v2")].
    vm_compute. repeat constructor.
  - exists [("Version", JStr "v2"); ("Indexes", JObj [])], "Data", [].
    vm_compute. repeat constructor.
  - exists [("Indexes", JObj [("id", JStr "7")])], "data", [("Version", JStr "v2")].
    vm_compute. repeat constructor.
  - exact Htable.
Defined.

(** C9, as stated, fails on its own example: the row of the second record
    is [3], [2], with the [y] of the first record.  And the cut counts
    bytes: a value of 41 characters of two bytes each is shown as its first
    40 bytes, which are 20 characters. *)
Lemma table_second_row_keeps_earlier_value :
  block.table (block.set_Records example.three_records example.b0)
    (example.on_disk "{}")
  = (example.on_disk "{}",
     Return (block.set_Records example.three_records example.b0,
             {| table.Headers := ["x"; "y"];
                table.Rows := [["1"; "2"]; ["3"; "2"]; ["5"; "4"]] |}))
  ∧ ¬ (∃ b t,
         (block.table (block.set_Records example.three_records example.b0)
            (example.on_disk "{}")).2 = Return (b, t)
         ∧ table.Headers t = ["x"; "y"]
         ∧ table.Rows t !! 1 = Some ["3"; ""])
  ∧ (characters (example.accents 41) = 41%nat
     ∧ table.Rows
         (table_of [example.envelope
                      ("{'x':'" ++ example.accents 41 ++ "'}")])
       = [[example.accents 20]]
     ∧ characters (example.accents 20) = 20%nat).
Proof.
  split; [vm_compute; reflexivity|]. split.
  - intros (b & t & Htable & _ & Hrow).
    vm_compute in Htable. injection Htable as _ <-.
    vm_compute in Hrow. discriminate Hrow.
  - vm_compute. done.
Qed.

(** The same table when the three records are hydrated from a block file. *)
Example table_after_hydration :
  ∃ b, (block.table example.b0 (example.on_disk example.three_records_file)).2
       = Return (b, {| table.Headers := ["x"; "y"];
                       table.Rows := [["1"; "2"]; ["3"; "2"]; ["5"; "4"]] |}).
Proof. eexists. vm_compute. reflexivity. Qed.

(** A record whose [Data] is [null] empties the decoded map: every cell of
    its row is [<nil>]. *)
Example table_null_data_row :
  (block.table
     (block.set_Records
        [example.envelope "{'x':1,'y':2}"; example.envelope "null"] example.b0)
     (example.on_disk "{}")).2
  = Return (block.set_Records
              [example.envelope "{'x':1,'y':2}"; example.envelope "null"]
              example.b0,
            {| table.Headers := ["x"; "y"];
               table.Rows := [["1"; "2"]; ["<nil>"; "<nil>"]] |}).
Proof. vm_compute. reflexivity. Qed.

(** A [Data] value that is itself an object is shown as [fmt] prints a map:
    one entry for every key, in the order of the keys. *)
Example table_nested_object :
  table.Rows (table_of [example.envelope "{'x':{'b':1,'a':2,'b':3}}"])
  = [["map[a:2 b:3]"]].
Proof. vm_compute. reflexivity. Qed.

(** * Further properties *)

Local Set Warnings "-clear-no-such-hyp".

(** ** The record index *)

(** X1: on a key the index does not hold, [get] and [delete] both return
    the error "key does not exist", [get] returns no record and [delete]
    leaves the block as it is. *)
Theorem get_delete_absent (b : block.t) (k : string) :
  block.recs b !! k = None →
  block.get b k = (None, Some (errorString "key does not exist"))
  ∧ block.delete b k = (b, Some (errorString "key does not exist")).
Proof.
  intros Hk. unfold block.get, block.delete. by rewrite Hk.
Qed.

Lemma get_delete_absent_witness :
  block.get (block.newBlock "d") "a"
  = (None, Some (errorString "key does not exist"))
  ∧ block.delete (block.newBlock "d") "a"
    = (block.newBlock "d", Some (errorString "key does not exist")).
Proof. apply (get_delete_absent (block.newBlock "d") "a"). reflexivity. Defined.

(** X2: [add] is last write wins: a second [add] of the same key leaves the
    block as if the first had not happened. *)
Theorem add_add_overwrites (b : block.t) (k v1 v2 : string) :
  block.add (block.add b k v1) k v2 = block.add b k v2.
Proof.
  unfold block.add, block.set_recs. simpl. by rewrite insert_insert_eq.
Qed.

(** X3: [add] and [delete] of one key leave what [get] returns for every
    other key as it was. *)
Theorem get_other_key (b : block.t) (k k' v : string) :
  k ≠ k' →
  block.get (block.add b k v) k' = block.get b k'
  ∧ block.get (block.delete b k).1 k' = block.get b k'.
Proof.
  intros Hne. unfold block.get, block.add, block.delete. simpl. split.
  - by rewrite lookup_insert_ne.
  - destruct (block.recs b !! k); simpl; [|done]. by rewrite lookup_delete_ne.
Qed.

Lemma get_other_key_witness :
  block.get (block.add (block.add (block.newBlock "d") "b" "{}") "a" "[]") "b"
  = block.get (block.add (block.newBlock "d") "b" "{}") "b".
Proof.
  apply (get_other_key (block.add (block.newBlock "d") "b" "{}") "a" "b" "[]").
  discriminate.
Defined.

(** X4: [delete] of a key the index holds returns no error, after it [get]
    of that key fails, and [size] is one less. *)
Theorem delete_present (b : block.t) (k : string) :
  is_Some (block.recs b !! k) →
  (block.delete b k).2 = None
  ∧ block.get (block.delete b k).1 k
    = (None, Some (errorString "key does not exist"))
  ∧ S (block.size (block.delete b k).1) = block.size b.
Proof.
  intros [r Hr]. unfold block.delete, block.get, block.size. rewrite Hr. simpl.
  rewrite lookup_delete_eq. repeat split.
  rewrite <- (insert_delete_id (block.recs b) k r Hr) at 2.
  by rewrite map_size_insert_None by apply lookup_delete_eq.
Qed.

Lemma delete_present_witness :
  (block.delete (block.add (block.newBlock "d") "a" "{}") "a").2 = None.
Proof.
  apply (delete_present (block.add (block.newBlock "d") "a" "{}") "a").
  by eexists.
Defined.

(** X5: a block built from [newBlock] by a sequence of [add]s has as many
    records as the sequence has distinct keys. *)
Theorem size_after_adds (d : string) (kvs : list (string * string)) :
  block.size (foldl (λ b kv, block.add b kv.1 kv.2) (block.newBlock d) kvs)
  = size (list_to_set kvs.*1 : gset string).
Proof.
  assert (∀ b, dom (block.recs (foldl (λ b kv, block.add b kv.1 kv.2) b kvs))
               = list_to_set kvs.*1 ∪ dom (block.recs b)) as Hdom.
  { induction kvs as [|[k v] kvs IH]; intros b; simpl.
    - set_solver.
    - rewrite IH. unfold block.add. simpl. rewrite dom_insert_L. set_solver. }
  unfold block.size. rewrite <- size_dom, Hdom. simpl.
  rewrite dom_empty_L. f_equal. set_solver.
Qed.

(** ** Encoding and decoding the index *)

Section index_codec.
Context `{!GoLib}.

(** Storing string members one by one. *)
Lemma foldl_insert_lookup {V : Type} (l : list (string * V)) (init : gmap string V)
    (k : string) :
  NoDup l.*1 →
  foldl (λ acc kv, <[kv.1 := kv.2]> acc) init l !! k
  = match list_find (λ kv, kv.1 = k) l with
    | Some (_, kv) => Some kv.2
    | None => init !! k
    end.
Proof.
  revert init. induction l as [|[k' v] l IH]; intros init Hnd; simpl; [done|].
  apply NoDup_cons in Hnd as [Hk' Hnd]. rewrite IH by done.
  destruct (decide (k' = k)) as [->|Hne]; simpl.
  - assert (list_find (λ kv : string * V, kv.1 = k) l = None) as ->.
    { apply list_find_None, Forall_forall. intros [k'' v'] Hin Heq.
      simpl in Heq. subst k''. apply Hk'. apply list_elem_of_fmap.
      by exists (k, v'). }
    simpl. by rewrite lookup_insert_eq.
  - destruct (list_find _ l) as [[i kv]|]; simpl; [done|].
    by rewrite lookup_insert_ne.
Qed.

(** An object all of whose members are strings is stored without error. *)
Lemma store_string_map_strings (entries : list (string * string))
    (m : option (gmap string string)) :
  store_string_map (JObj (prod_map id JStr <$> entries)) m
  = (Some (foldl (λ acc kv, <[kv.1 := kv.2]> acc) (default ∅ m) entries), None).
Proof.
  unfold store_string_map. generalize (default ∅ m). intros init.
  revert init. induction entries as [|[k s] entries IH]; intros init; [done|].
  exact (IH (<[k := s]> init)).
Qed.

(** Once a member that is neither a string nor null has been met, the
    error stays. *)
Lemma store_string_map_error (members : list (string * json))
    (m : option (gmap string string)) :
  Exists (λ kv, match kv.2 with JStr _ | JNull => False | _ => True end) members →
  is_Some (store_string_map (JObj members) m).2.
Proof.
  unfold store_string_map. intros Hbad.
  assert (∀ acc : option (gmap string string) * option error,
    Exists (λ kv, match kv.2 with JStr _ | JNull => False | _ => True end) members
    ∨ is_Some acc.2 →
    is_Some (foldl (λ acc kv,
               match kv.2 with
               | JStr s => (Some (<[kv.1 := s]> (default ∅ acc.1)), acc.2)
               | JNull => (Some (<[kv.1 := ""]> (default ∅ acc.1)), acc.2)
               | x => (Some (<[kv.1 := ""]> (default ∅ acc.1)),
                       match acc.2 with
                       | Some e => Some e
                       | None => Some (UnmarshalTypeError
                           ("json: cannot unmarshal " ++ kind x
                            ++ " into Go value of type string"))
                       end)
               end) acc members).2) as Hfold.
  { clear Hbad. induction members as [|[k v] members IH]; intros acc [Hex|Hacc].
    - by apply Exists_nil in Hex.
    - done.
    - simpl. apply IH. apply Exists_cons in Hex as [Hv|Hex]; [right|by left].
      simpl in Hv. destruct v; try done; simpl; by destruct acc.2.
    - simpl. apply IH. right.
      destruct v; simpl; try done; destruct Hacc as [e ->]; done. }
  apply Hfold. by left.
Qed.

(** X6: [UnmarshalJSON] takes a block file whole or not at all: when the
    bytes are not JSON, or are an object with a member that is neither a
    string nor null, it returns an error and the block it was called on. *)
Theorem UnmarshalJSON_rejects (b : block.t) (data : string) :
  (∀ e, json_parse data = inr e → block.UnmarshalJSON b data = (b, Some e))
  ∧ (∀ members,
       json_parse data = inl (JObj members) →
       Exists (λ kv, match kv.2 with JStr _ | JNull => False | _ => True end)
              members →
       ∃ e, block.UnmarshalJSON b data = (b, Some e)).
Proof.
  unfold block.UnmarshalJSON, Unmarshal_string_map. split.
  - by intros e ->.
  - intros members -> Hbad.
    destruct (store_string_map_error members None Hbad) as [e He].
    destruct (store_string_map (JObj members) None) as [raw err].
    simpl in He. subst err. by exists e.
Qed.

(** What the index holds after [UnmarshalJSON] of an object of strings. *)
Lemma UnmarshalJSON_strings (b : block.t) (data : string)
    (entries : list (string * string)) :
  json_parse data = inl (JObj (prod_map id JStr <$> entries)) →
  NoDup entries.*1 →
  (block.UnmarshalJSON b data).2 = None
  ∧ ∀ k, block.recs (block.UnmarshalJSON b data).1 !! k
         = match list_find (λ kv, kv.1 = k) entries with
           | Some (_, kv) => Some (newRecord k kv.2)
           | None => block.recs b !! k
           end.
Proof.
  intros Hparse Hnd.
  unfold block.UnmarshalJSON, Unmarshal_string_map.
  rewrite Hparse, store_string_map_strings. simpl. split; [done|].
  intros k. rewrite lookup_union, map_lookup_imap, foldl_insert_lookup by done.
  destruct (list_find _ entries) as [[i kv]|]; simpl.
  - by destruct (block.recs b !! k).
  - rewrite lookup_empty. simpl. by destruct (block.recs b !! k).
Qed.

Lemma list_find_key_Some {V : Type} (entries : list (string * V)) (k : string) (v : V) :
  NoDup entries.*1 → (k, v) ∈ entries →
  ∃ i, list_find (λ kv, kv.1 = k) entries = Some (i, (k, v)).
Proof.
  intros Hnd Hin.
  destruct (list_find (λ kv : string * V, kv.1 = k) entries)
    as [[i [k' v']]|] eqn:Hfind.
  - apply list_find_Some in Hfind as (Hi & Hk & _). simpl in Hk. subst k'.
    exists i. do 3 f_equal.
    apply list_elem_of_lookup in Hin as [j Hj].
    assert (i = j) as ->; [|congruence].
    eapply NoDup_lookup; [exact Hnd| |];
      rewrite list_lookup_fmap; [by rewrite Hi|by rewrite Hj].
  - apply list_find_None in Hfind. rewrite Forall_forall in Hfind.
    by destruct (Hfind _ Hin).
Qed.

Lemma list_find_key_None {V : Type} (entries : list (string * V)) (k : string) :
  k ∉ entries.*1 → list_find (λ kv, kv.1 = k) entries = None.
Proof.
  intros Hk. apply list_find_None, Forall_forall. intros [k' v'] Hin Heq.
  simpl in Heq. subst k'. apply Hk. apply list_elem_of_fmap. by exists (k, v').
Qed.

(** X7: when the bytes are an object of strings with distinct keys,
    [UnmarshalJSON] returns no error; afterwards [get] of a key of the
    object returns the record [newRecord] makes for the key and its
    string, and [get] of any other key returns what it returned before. *)
Theorem UnmarshalJSON_object_of_strings (b : block.t) (data : string)
    (entries : list (string * string)) :
  json_parse data = inl (JObj (prod_map id JStr <$> entries)) →
  NoDup entries.*1 →
  (block.UnmarshalJSON b data).2 = None
  ∧ (∀ k s, (k, s) ∈ entries →
       block.get (block.UnmarshalJSON b data).1 k
       = (Some (newRecord k s), None))
  ∧ (∀ k, k ∉ entries.*1 →
       block.get (block.UnmarshalJSON b data).1 k = block.get b k).
Proof.
  intros Hparse Hnd.
  destruct (UnmarshalJSON_strings b data entries Hparse Hnd) as [Herr Hlookup].
  split; [done|]. unfold block.get. split.
  - intros k s Hin. rewrite Hlookup.
    by destruct (list_find_key_Some entries k s Hnd Hin) as [i ->].
  - intros k Hk. by rewrite Hlookup, list_find_key_None.
Qed.

Section round_trip.
Context `{!GoUTF8}.

(** The members [MarshalJSON] writes, as pairs of strings. *)
Lemma MarshalJSON_entries (b : block.t) :
  (∀ k r, block.recs b !! k = Some r →
     ToValidUTF8 k = k ∧ ToValidUTF8 (record.data r) = record.data r) →
  ∃ entries : list (string * string),
    (block.MarshalJSON b).1 = JObj (prod_map id JStr <$> entries)
    ∧ entries.*1 = orderMapKeys (record.data <$> block.recs b)
    ∧ ∀ k s, (k, s) ∈ entries ↔ record.data <$> block.recs b !! k = Some s.
Proof.
  intros Hvalid. unfold block.MarshalJSON. simpl.
  set (raw := record.data <$> block.recs b).
  assert (∀ k s, raw !! k = Some s → ToValidUTF8 k = k ∧ ToValidUTF8 s = s)
    as Hraw.
  { intros k s. unfold raw. rewrite lookup_fmap.
    destruct (block.recs b !! k) as [r|] eqn:Hr; [|done].
    intros [= <-]. by apply (Hvalid k r). }
  assert (∀ keys : list string, Forall (λ k, is_Some (raw !! k)) keys →
    ∃ entries : list (string * string),
      omap (λ k, (λ v, (ToValidUTF8 k, JStr (ToValidUTF8 v))) <$> raw !! k) keys
      = prod_map id JStr <$> entries
      ∧ entries.*1 = keys
      ∧ ∀ k s, (k, s) ∈ entries ↔ k ∈ keys ∧ raw !! k = Some s) as Hkeys.
  { induction keys as [|k keys IH]; intros Hall.
    - exists []. split; [done|]. split; [done|]. intros k s. split.
      + intros Hin. by apply elem_of_nil in Hin.
      + intros [Hin _]. by apply elem_of_nil in Hin.
    - apply Forall_cons in Hall as [[s Hs] Hall].
      destruct (IH Hall) as (entries & Homap & Hfst & Hin).
      exists ((k, s) :: entries). simpl. rewrite Hs. simpl.
      destruct (Hraw k s Hs) as [-> ->].
      split; [f_equal; exact Homap|]. split; [f_equal; exact Hfst|].
      intros k' s'. split.
      + intros [Heq|Hin']%elem_of_cons.
        * injection Heq as -> ->. split; [apply list_elem_of_here|done].
        * apply Hin in Hin' as [??]. split; [by apply list_elem_of_further|done].
      + intros [[->|Hin']%elem_of_cons Hlook].
        * rewrite Hs in Hlook. injection Hlook as ->. apply list_elem_of_here.
        * apply list_elem_of_further, Hin. done. }
  destruct (Hkeys (orderMapKeys raw)) as (entries & Homap & Hfst & Hin).
  { apply Forall_forall. intros k. by rewrite elem_of_orderMapKeys. }
  exists entries. split; [by rewrite Homap|]. split; [done|].
  intros k s. rewrite Hin, elem_of_orderMapKeys. unfold raw.
  rewrite lookup_fmap. split; [by intros [_ ?]|].
  intros Hs. split; [by eexists|done].
Qed.

(** X8: the round trip of the index.  When [MarshalJSON] of a block whose
    keys and payloads are valid UTF-8 is read back by [UnmarshalJSON] into a
    new block, no error is returned and the new block holds, under every
    key of the old one, the record [newRecord] makes for the key and the
    old payload, and holds nothing else. *)
Theorem MarshalJSON_UnmarshalJSON (b : block.t) (dataset data : string) :
  (∀ k r, block.recs b !! k = Some r →
     ToValidUTF8 k = k ∧ ToValidUTF8 (record.data r) = record.data r) →
  json_parse data = inl (block.MarshalJSON b).1 →
  (block.MarshalJSON b).2 = None
  ∧ (block.UnmarshalJSON (block.newBlock dataset) data).2 = None
  ∧ (∀ k, block.recs (block.UnmarshalJSON (block.newBlock dataset) data).1 !! k
          = (λ r, newRecord k (record.data r)) <$> block.recs b !! k)
  ∧ block.size (block.UnmarshalJSON (block.newBlock dataset) data).1
    = block.size b.
Proof.
  intros Hvalid Hparse.
  destruct (MarshalJSON_entries b Hvalid) as (entries & Hdoc & Hfst & Hin).
  rewrite Hdoc in Hparse.
  assert (NoDup entries.*1) as Hnd.
  { rewrite Hfst. unfold orderMapKeys. rewrite merge_sort_Permutation.
    apply NoDup_fst_map_to_list. }
  destruct (UnmarshalJSON_strings (block.newBlock dataset) data entries Hparse Hnd)
    as [Herr Hlookup].
  assert (∀ k, block.recs (block.UnmarshalJSON (block.newBlock dataset) data).1 !! k
               = (λ r, newRecord k (record.data r)) <$> block.recs b !! k)
    as Hrecs.
  { intros k. rewrite Hlookup.
    destruct (block.recs b !! k) as [r|] eqn:Hr; simpl.
    - assert ((k, record.data r) ∈ entries) as Hk
        by (apply Hin; by rewrite Hr).
      by destruct (list_find_key_Some entries k _ Hnd Hk) as [i ->].
    - rewrite list_find_key_None; [done|].
      intros [[k' s] [Heq Hk]]%list_elem_of_fmap. simpl in Heq. subst k'.
      apply Hin in Hk. by rewrite Hr in Hk. }
  split; [done|]. split; [done|]. split; [done|].
  unfold block.size. rewrite <- !size_dom. f_equal.
  apply set_eq. intros k. rewrite !elem_of_dom, Hrecs.
  by rewrite fmap_is_Some.
Qed.

End round_trip.

End index_codec.

Lemma UnmarshalJSON_rejects_witness :
  ∃ e, block.UnmarshalJSON (block.add (block.newBlock "d") "k" "{}")
         (stand_in.q "{'a':'{}','b':1}")
       = (block.add (block.newBlock "d") "k" "{}", Some e).
Proof.
  destruct (UnmarshalJSON_rejects (block.add (block.newBlock "d") "k" "{}")
              (stand_in.q "{'a':'{}','b':1}")) as [_ Hmember].
  apply (Hmember [("a", JStr "{}"); ("b", JNum "1")]).
  - vm_compute. reflexivity.
  - apply Exists_cons_tl, Exists_cons_hd. exact I.
Defined.

Lemma UnmarshalJSON_object_of_strings_witness :
  (block.UnmarshalJSON (block.newBlock "d") (stand_in.q "{'a':'{}','b':'[]'}")).2
  = None.
Proof.
  apply (UnmarshalJSON_object_of_strings (block.newBlock "d")
           (stand_in.q "{'a':'{}','b':'[]'}") [("a", "{}"); ("b", "[]")]).
  - vm_compute. reflexivity.
  - apply NoDup_cons. split; [|apply NoDup_singleton].
    intros Hin. apply list_elem_of_singleton in Hin. discriminate Hin.
Defined.

Lemma MarshalJSON_UnmarshalJSON_witness :
  block.size
    (block.UnmarshalJSON (block.newBlock "copy")
       (stand_in.q "{'a':'[1]','b':'{}'}")).1
  = block.size (block.add (block.add (block.newBlock "d") "b" "{}") "a" "[1]").
Proof.
  apply (MarshalJSON_UnmarshalJSON
           (block.add (block.add (block.newBlock "d") "b" "{}") "a" "[1]")
           "copy" (stand_in.q "{'a':'[1]','b':'{}'}")).
  - intros k r _. split; reflexivity.
  - vm_compute. reflexivity.
Defined.

(** ** Hydration: the other outcomes of a read *)

Section reads.
Context `{!GoLib, !Crypto}.

(** [readBlock] on the world [records] hands it, when the file is there and
    decodes. *)
Lemma readBlock_decoded (b : block.t) (w : world) (data : string)
    (dataBlock : option (gmap string json)) :
  files w !! block.blockFile b w = Some data →
  Unmarshal_map data None = (dataBlock, None) →
  block.readBlock b (cleared w)
  = block.range_recordKeys b dataBlock (orderMapKeys (default ∅ dataBlock))
      None []
      {| Dataset := Dataset (cleared w); files := files w;
         reads := reads w ++ [block.blockFile b w] |}.
Proof.
  intros Hfile Hdecode. unfold block.readBlock, ReadFile. run.
  change (block.blockFile b (cleared w)) with (block.blockFile b w).
  change (files (cleared w)) with (files w). by rewrite Hfile, Hdecode.
Qed.

(** The loop of [readBlock] over keys whose entries are all good. *)
Lemma range_recordKeys_good (b : block.t) (dataBlock : option (gmap string json))
    (keys : list string) record result (w : world) :
  (∀ k, k ∈ keys → ∃ s, default ∅ dataBlock !! k = Some (JStr s)
                        ∧ bad_entry (dataset.cryptoKey (Dataset w)) s = false) →
  block.range_recordKeys b dataBlock keys record result w
  = (w, Return ((result
                 ++ ((λ k, formatted (dataset.cryptoKey (Dataset w))
                             (entry (default ∅ dataBlock) k)) <$> keys))%list,
                None)).
Proof.
  revert record result. induction keys as [|k keys IH]; intros record result Hgood.
  - simpl. by rewrite app_nil_r.
  - destruct (Hgood k) as (s & Hk & Hs); [apply list_elem_of_here|].
    simpl. rewrite Hk. run. rewrite decrypt_decrypted.
    unfold bad_entry in Hs. rewrite (Unmarshal_map_error _ None record) in Hs.
    unfold formatted, entry at 1. rewrite Hk.
    destruct (Unmarshal_map _ record) as [record' [e|]]; simpl in Hs; [done|].
    destruct (json_Indent _) as [buf|e]; [|done].
    rewrite IH by (intros k' Hk'; apply Hgood; by apply list_elem_of_further).
    by rewrite <- app_assoc.
Qed.

(** X9: a block file all of whose entries are good strings is hydrated
    whole: [records] returns one record for every key, in the order of the
    keys, each holding the indented form of the decrypted entry; both lists
    of the dataset end empty and the file is read once. *)
Theorem records_all_good (b : block.t) (w : world) (data : string)
    (dataBlock : option (gmap string json)) :
  files w !! block.blockFile b w = Some data →
  Unmarshal_map data None = (dataBlock, None) →
  (∀ k v, default ∅ dataBlock !! k = Some v →
     ∃ s, v = JStr s ∧ bad_entry (dataset.cryptoKey (Dataset w)) s = false) →
  block.records b w
  = ({| Dataset := Dataset (cleared w); files := files w;
        reads := reads w ++ [block.blockFile b w] |},
     Return ((λ k, hydrated (formatted (dataset.cryptoKey (Dataset w))
                               (entry (default ∅ dataBlock) k)))
             <$> orderMapKeys (default ∅ dataBlock))).
Proof.
  intros Hfile Hdecode Hgood.
  rewrite records_unfold, (readBlock_decoded b w data dataBlock) by done.
  rewrite range_recordKeys_good.
  - simpl. f_equal. f_equal. rewrite <- list_fmap_compose.
    by apply list_fmap_ext.
  - intros k [v Hv]%elem_of_orderMapKeys.
    destruct (Hgood k v Hv) as (s & -> & Hs). by exists s.
Qed.

(** X10: when the block file cannot be read, [records] returns no records
    and records nothing: [BadBlocks] and [BadRecords] end empty. *)
Theorem records_unreadable (b : block.t) (w : world) :
  files w !! block.blockFile b w = None →
  block.records b w
  = ({| Dataset := Dataset (cleared w); files := files w;
        reads := reads w ++ [block.blockFile b w] |},
     Return []).
Proof.
  intros Hfile. rewrite records_unfold.
  assert (block.readBlock b (cleared w)
          = ({| Dataset := Dataset (cleared w); files := files w;
                reads := reads w ++ [block.blockFile b w] |},
             Return ([], Some (PathError (block.blockFile b w))))) as ->.
  { unfold block.readBlock, ReadFile. run.
    change (block.blockFile b (cleared w)) with (block.blockFile b w).
    change (files (cleared w)) with (files w). by rewrite Hfile. }
  reflexivity.
Qed.

(** The loop of [readBlock] panics at the first entry that is not a string,
    when the entries before it are good. *)
Lemma range_recordKeys_panics (b : block.t) (dataBlock : option (gmap string json))
    (pre post : list string) (k0 : string) record result (w : world) :
  (∀ k, k ∈ pre → ∃ s, default ∅ dataBlock !! k = Some (JStr s)
                       ∧ bad_entry (dataset.cryptoKey (Dataset w)) s = false) →
  (∀ s, default ∅ dataBlock !! k0 ≠ Some (JStr s)) →
  block.range_recordKeys b dataBlock (pre ++ k0 :: post)%list record result w
  = (w, Panic "interface conversion: interface {} is not string").
Proof.
  intros Hpre Hk0. revert record result.
  induction pre as [|k pre IH]; intros record result; simpl.
  - destruct (default ∅ dataBlock !! k0) as [[| | |s| |]|]; try done.
    by destruct (Hk0 s).
  - destruct (Hpre k) as (s & Hk & Hs); [apply list_elem_of_here|].
    rewrite Hk. run. rewrite decrypt_decrypted.
    unfold bad_entry in Hs. rewrite (Unmarshal_map_error _ None record) in Hs.
    destruct (Unmarshal_map _ record) as [record' [e|]]; simpl in Hs; [done|].
    destruct (json_Indent _) as [buf|e]; [|done].
    apply IH. intros k' Hk'. apply Hpre. by apply list_elem_of_further.
Qed.

(** X11: when the block file decodes as an object and, in the order of the
    keys, the first entry that is not a good string is not a string at all,
    [records] panics: the type assertion of [readBlock] is not checked.
    The dataset is left with both lists empty. *)
Theorem records_panics_on_non_string (b : block.t) (w : world) (data : string)
    (dataBlock : option (gmap string json)) (pre post : list string)
    (k0 : string) :
  files w !! block.blockFile b w = Some data →
  Unmarshal_map data None = (dataBlock, None) →
  orderMapKeys (default ∅ dataBlock) = (pre ++ k0 :: post)%list →
  (∀ k, k ∈ pre → ∃ s, default ∅ dataBlock !! k = Some (JStr s)
                       ∧ bad_entry (dataset.cryptoKey (Dataset w)) s = false) →
  (∀ s, default ∅ dataBlock !! k0 ≠ Some (JStr s)) →
  block.records b w
  = ({| Dataset := Dataset (cleared w); files := files w;
        reads := reads w ++ [block.blockFile b w] |},
     Panic "interface conversion: interface {} is not string").
Proof.
  intros Hfile Hdecode Hkeys Hpre Hk0.
  rewrite records_unfold, (readBlock_decoded b w data dataBlock), Hkeys by done.
  by rewrite range_recordKeys_panics.
Qed.

(** X12: whatever a read finds, [records] reads the block file exactly
    once, leaves every file as it is, and writes to nothing of the dataset
    but [BadBlocks] and [BadRecords]. *)
Theorem records_frame (b : block.t) (w : world) :
  files (block.records b w).1 = files w
  ∧ reads (block.records b w).1 = (reads w ++ [block.blockFile b w])%list
  ∧ dataset.DbPath (Dataset (block.records b w).1) = dataset.DbPath (Dataset w)
  ∧ dataset.Name (Dataset (block.records b w).1) = dataset.Name (Dataset w)
  ∧ dataset.cryptoKey (Dataset (block.records b w).1)
    = dataset.cryptoKey (Dataset w).
Proof.
  rewrite records_unfold. simpl. rewrite readBlock_world. done.
Qed.

(** A read does not look at the index of the block, only at its name. *)
Lemma range_recordKeys_block (b b' : block.t) dataBlock keys record result w :
  block.range_recordKeys b dataBlock keys record result w
  = block.range_recordKeys b' dataBlock keys record result w.
Proof.
  revert record result. induction keys as [|k keys IH]; intros record result;
    simpl; [done|].
  destruct (default ∅ dataBlock !! k) as [[| | |s| |]|]; try done.
  run. rewrite !decrypt_decrypted.
  destruct (Unmarshal_map _ record) as [record' [e|]]; [done|].
  destruct (json_Indent _) as [buf|e]; [|done].
  apply IH.
Qed.

Lemma records_block (b b' : block.t) (w : world) :
  block.Name b = block.Name b' → block.records b w = block.records b' w.
Proof.
  intros Hname. rewrite !records_unfold.
  assert (block.readBlock b (cleared w) = block.readBlock b' (cleared w)) as ->;
    [|done].
  unfold block.readBlock, ReadFile, block.blockFile. run. rewrite Hname.
  destruct (files (cleared w) !! _) as [data|]; [|done].
  destruct (Unmarshal_map data None) as [dataBlock [e|]]; [done|].
  apply range_recordKeys_block.
Qed.

(** X13: the index and the hydrated records are kept apart.  [loadRecords]
    leaves the index as it is, and [add] commutes with it: hydrating after
    an [add] gives the block that the [add] gives after hydrating, with the
    same effect on the world. *)
Theorem loadRecords_add_commute (b : block.t) (k v : string) (w : world) :
  (∀ w' b', block.loadRecords b w = (w', Return b') →
            block.recs b' = block.recs b)
  ∧ block.loadRecords (block.add b k v) w
    = on_block (λ b', block.add b' k v) (block.loadRecords b w).
Proof.
  unfold block.loadRecords, on_block. split.
  - intros w' b'. destruct (length (block.Records b) =? 0)%nat.
    + run. destruct (block.records b w) as [w'' [rs|msg]]; [|done].
      by intros [= _ <-].
    + by intros [= _ <-].
  - change (block.Records (block.add b k v)) with (block.Records b).
    destruct (length (block.Records b) =? 0)%nat; [|done].
    run. rewrite (records_block (block.add b k v) b) by done.
    by destruct (block.records b w) as [w'' [rs|msg]].
Qed.

(** X14: [RecordCount] of a block that is not loaded yet and whose file
    holds only good strings is the number of entries of the file. *)
Theorem RecordCount_all_good (b : block.t) (w : world) (data : string)
    (dataBlock : option (gmap string json)) :
  block.Records b = [] →
  files w !! block.blockFile b w = Some data →
  Unmarshal_map data None = (dataBlock, None) →
  (∀ k v, default ∅ dataBlock !! k = Some v →
     ∃ s, v = JStr s ∧ bad_entry (dataset.cryptoKey (Dataset w)) s = false) →
  ∃ b', block.RecordCount b w
        = ({| Dataset := Dataset (cleared w); files := files w;
              reads := reads w ++ [block.blockFile b w] |},
           Return (b', size (default ∅ dataBlock)))
        ∧ length (block.Records b') = size (default ∅ dataBlock).
Proof.
  intros Hempty Hfile Hdecode Hgood.
  unfold block.RecordCount, block.loadRecords. rewrite Hempty. simpl. run.
  rewrite records_unfold, (readBlock_decoded b w data dataBlock) by done.
  rewrite range_recordKeys_good; cycle 1.
  { intros k [v Hv]%elem_of_orderMapKeys.
    destruct (Hgood k v Hv) as (s & -> & Hs). by exists s. }
  assert (length (orderMapKeys (default ∅ dataBlock)) = size (default ∅ dataBlock))
    as Hlen.
  { unfold orderMapKeys. rewrite merge_sort_Permutation, length_fmap.
    by rewrite length_map_to_list. }
  eexists. split.
  - simpl. rewrite !length_fmap, Hlen. reflexivity.
  - simpl. by rewrite !length_fmap.
Qed.

(** X15: when a read ends in an error of any kind (a file that cannot be
    read, a bad block, a bad record), [RecordCount] is 0 and the block is
    returned as it was, not marked as loaded: the next call reads the file
    again. *)
Theorem RecordCount_failed_read (b : block.t) (w : world) (recs : list string)
    (err : error) :
  block.Records b = [] →
  (block.readBlock b (cleared w)).2 = Return (recs, Some err) →
  (block.RecordCount b w).2 = Return (b, 0)
  ∧ ∀ w', reads (block.RecordCount b w').1
          = (reads w' ++ [block.blockFile b w'])%list.
Proof.
  intros Hempty Hread. split.
  - unfold block.RecordCount, block.loadRecords. rewrite Hempty. simpl. run.
    rewrite records_unfold. simpl. rewrite Hread. simpl.
    destruct b. simpl in Hempty. by subst.
  - intros w'. unfold block.RecordCount. run.
    pose proof (loadRecords_reads b w' Hempty) as Hreads.
    by destruct (block.loadRecords b w') as [w'' [b'|msg]].
Qed.

End reads.

Lemma records_all_good_witness :
  block.records example.b0 (example.on_disk example.good_file)
  = ({| Dataset := example.accounts;
        files := {[ "/db/accounts/b0.json" := example.good_file ]};
        reads := ["/db/accounts/b0.json"] |},
     Return ((λ k, hydrated (formatted "key" (entry example.good_entries k)))
             <$> orderMapKeys example.good_entries)).
Proof.
  rewrite (records_all_good example.b0 (example.on_disk example.good_file)
             example.good_file (Some example.good_entries)).
  - reflexivity.
  - vm_compute. reflexivity.
  - vm_compute. reflexivity.
  - intros k v Hkv. apply elem_of_map_to_list in Hkv.
    vm_compute map_to_list in Hkv.
    repeat (apply elem_of_cons in Hkv as [Hkv|Hkv];
            [injection Hkv as -> ->; eexists; split;
               [reflexivity|vm_compute; reflexivity]|]).
    by apply elem_of_nil in Hkv.
Defined.

Lemma records_unreadable_witness :
  block.records example.b0 example.nothing_on_disk
  = ({| Dataset := example.accounts; files := ∅;
        reads := ["/db/accounts/b0.json"] |},
     Return []).
Proof.
  rewrite (records_unreadable example.b0 example.nothing_on_disk).
  - reflexivity.
  - vm_compute. reflexivity.
Defined.

Lemma records_panics_on_non_string_witness :
  block.records example.b0 (example.on_disk example.holed_file)
  = ({| Dataset := example.accounts;
        files := {[ "/db/accounts/b0.json" := example.holed_file ]};
        reads := ["/db/accounts/b0.json"] |},
     Panic "interface conversion: interface {} is not string").
Proof.
  rewrite (records_panics_on_non_string example.b0
             (example.on_disk example.holed_file) example.holed_file
             (Some example.holed_entries) ["a"] ["c"] "b").
  - reflexivity.
  - vm_compute. reflexivity.
  - vm_compute. reflexivity.
  - vm_compute. reflexivity.
  - intros k Hk. apply list_elem_of_singleton in Hk as ->.
    exists "{}". split; vm_compute; reflexivity.
  - intros s. vm_compute. discriminate.
Defined.

Lemma RecordCount_all_good_witness :
  ∃ b', block.RecordCount example.b0 (example.on_disk example.good_file)
        = ({| Dataset := example.accounts;
              files := {[ "/db/accounts/b0.json" := example.good_file ]};
              reads := ["/db/accounts/b0.json"] |},
           Return (b', 2)).
Proof.
  destruct (RecordCount_all_good example.b0 (example.on_disk example.good_file)
              example.good_file (Some example.good_entries))
    as (b' & Hcount & _).
  - reflexivity.
  - vm_compute. reflexivity.
  - vm_compute. reflexivity.
  - intros k v Hkv. apply elem_of_map_to_list in Hkv.
    vm_compute map_to_list in Hkv.
    repeat (apply elem_of_cons in Hkv as [Hkv|Hkv];
            [injection Hkv as -> ->; eexists; split;
               [reflexivity|vm_compute; reflexivity]|]).
    by apply elem_of_nil in Hkv.
  - exists b'. exact Hcount.
Defined.

Lemma RecordCount_failed_read_witness :
  (block.RecordCount example.b0 (example.on_disk example.mixed_file)).2
  = Return (example.b0, 0).
Proof.
  refine (proj1 (RecordCount_failed_read example.b0
                   (example.on_disk example.mixed_file) _ _ _ _)).
  - reflexivity.
  - vm_compute. reflexivity.
Defined.

(** ** The table: shape and columns *)

Section table_shape.
Context `{!GoLib, !Crypto}.

(** [table] is [loadRecords] followed by the loop over the records. *)
Lemma table_unfold (b : block.t) (w : world) :
  block.table b w
  = on_block (λ b', (b', table_of (block.Records b'))) (block.loadRecords b w).
Proof.
  unfold block.table, on_block, table_of. run.
  by destruct (block.loadRecords b w) as [w' [b'|msg]].
Qed.

Lemma cell_length (jsonMap : option (gmap string json)) (key : string) :
  (String.length (block.cell jsonMap key) ≤ 40)%nat.
Proof.
  unfold block.cell. destruct (40 <? String.length _)%nat eqn:Hlong.
  - apply Nat.ltb_lt in Hlong. rewrite length_substring_0; lia.
  - by apply Nat.ltb_ge in Hlong.
Qed.

(** After the first turn of the loop the headers stay, and every turn adds
    one row as wide as the headers. *)
Lemma range_Records_later (records : list record.t) (i : nat) rawV2 jsonMap
    (t : table.t) :
  table.Headers (block.range_Records records (S i) rawV2 jsonMap t)
  = table.Headers t
  ∧ ∃ rows, table.Rows (block.range_Records records (S i) rawV2 jsonMap t)
            = (table.Rows t ++ rows)%list
            ∧ length rows = length records
            ∧ Forall (well_shaped (table.Headers t)) rows.
Proof.
  revert i rawV2 jsonMap t.
  induction records as [|r records IH]; intros i rawV2 jsonMap t.
  - simpl. split; [done|]. exists []. by rewrite app_nil_r.
  - simpl. destruct (block.Unmarshal_rawV2 _ rawV2) as [rawV2' e1].
    destruct (store_map _ jsonMap) as [jsonMap' e2].
    destruct (IH (S i) rawV2' jsonMap'
      {| table.Headers := table.Headers t;
         table.Rows := (table.Rows t
                        ++ [map (block.cell jsonMap') (table.Headers t)])%list |})
      as (Hheaders & rows & Hrows & Hlen & Hshape).
    simpl in *. split; [done|].
    exists (map (block.cell jsonMap') (table.Headers t) :: rows).
    rewrite Hrows, <- app_assoc. split; [done|]. split; [simpl; by rewrite Hlen|].
    constructor; [|done]. split; [by rewrite length_map|].
    apply Forall_forall. intros c [k [-> _]]%list_elem_of_fmap.
    apply cell_length.
Qed.

(** The first turn of the loop sets the headers. *)
Lemma range_Records_first (r : record.t) (records : list record.t) rawV2 jsonMap
    (t : table.t) :
  ∃ rawV2' jsonMap' t',
    table.Headers t' = orderMapKeys (default ∅ jsonMap')
    ∧ table.Rows t'
      = (table.Rows t ++ [map (block.cell jsonMap') (table.Headers t')])%list
    ∧ block.range_Records (r :: records) 0 rawV2 jsonMap t
      = block.range_Records records 1 rawV2' jsonMap' t'
    ∧ block.range_Records [r] 0 rawV2 jsonMap t = t'.
Proof.
  simpl. destruct (block.Unmarshal_rawV2 _ rawV2) as [rawV2' e1].
  destruct (store_map _ jsonMap) as [jsonMap' e2].
  by exists rawV2', jsonMap',
    {| table.Headers := orderMapKeys (default ∅ jsonMap');
       table.Rows := (table.Rows t
                      ++ [map (block.cell jsonMap')
                              (orderMapKeys (default ∅ jsonMap'))])%list |}.
Qed.

(** X16: the table is rectangular.  When [table] returns, it has one row
    for every record of the block, every row has one cell for every header,
    and no cell is longer than 40 bytes; [table] panics only when
    [loadRecords] does. *)
Theorem table_rectangular (b : block.t) (w : world) :
  match (block.table b w).2 with
  | Return (b', t) =>
      length (table.Rows t) = length (block.Records b')
      ∧ Forall (well_shaped (table.Headers t)) (table.Rows t)
  | Panic msg => (block.loadRecords b w).2 = Panic msg
  end.
Proof.
  rewrite table_unfold. unfold on_block. simpl.
  destruct (block.loadRecords b w).2 as [b'|msg]; [|done].
  unfold table_of. destruct (block.Records b') as [|r records]; [by split|].
  destruct (range_Records_first r records
              {| block.Indexes := None; block.Data := None |} None
              {| table.Headers := []; table.Rows := [] |})
    as (rawV2' & jsonMap' & t' & _ & Hrows' & -> & _).
  destruct (range_Records_later records 0 rawV2' jsonMap' t')
    as (-> & rows & -> & Hlen & Hshape).
  rewrite Hrows'. simpl. split; [by rewrite Hlen|].
  constructor; [|done]. split; [by rewrite length_map|].
  apply Forall_forall. intros c [k [-> _]]%list_elem_of_fmap.
  apply cell_length.
Qed.

(** X17: the first record alone decides the columns.  The headers of the
    table of a list of records are those of the table of its first record:
    they are in ascending order without repetition, and a key that only a
    later record has never becomes a column.  Without records there are
    neither headers nor rows. *)
Theorem table_headers_from_first (r : record.t) (records : list record.t) :
  table_of [] = {| table.Headers := []; table.Rows := [] |}
  ∧ table.Headers (table_of (r :: records)) = table.Headers (table_of [r])
  ∧ StronglySorted String.le (table.Headers (table_of (r :: records)))
  ∧ NoDup (table.Headers (table_of (r :: records))).
Proof.
  split; [done|]. unfold table_of.
  destruct (range_Records_first r records
              {| block.Indexes := None; block.Data := None |} None
              {| table.Headers := []; table.Rows := [] |})
    as (rawV2' & jsonMap' & t' & Hh & _ & -> & ->).
  destruct (range_Records_later records 0 rawV2' jsonMap' t') as (-> & _).
  split; [done|]. rewrite Hh. split.
  - apply orderMapKeys_sorted.
  - unfold orderMapKeys. rewrite merge_sort_Permutation.
    apply NoDup_fst_map_to_list.
Qed.

End table_shape.

(** ** The table: what a later record leaves behind *)

Section table_values.
Context `{!GoLib}.

Lemma foldl_insert_notin {V : Type} (l : list (string * V)) (init : gmap string V)
    (k : string) :
  k ∉ l.*1 → foldl (λ acc kv, <[kv.1 := kv.2]> acc) init l !! k = init !! k.
Proof.
  revert init. induction l as [|[k' v] l IH]; intros init Hk; simpl; [done|].
  rewrite IH.
  - rewrite lookup_insert_ne; [done|]. intros ->. apply Hk. simpl.
    apply list_elem_of_here.
  - intros Hin. apply Hk. simpl. by apply list_elem_of_further.
Qed.

Lemma foldl_insert_in {V : Type} (l : list (string * V)) (init : gmap string V)
    (k : string) :
  k ∈ l.*1 → is_Some (foldl (λ acc kv, <[kv.1 := kv.2]> acc) init l !! k).
Proof.
  revert init. induction l as [|[k' v] l IH]; intros init Hk; simpl in *.
  - by apply elem_of_nil in Hk.
  - destruct (decide (k ∈ l.*1)) as [Hin|Hnotin]; [by apply IH|].
    rewrite foldl_insert_notin by done.
    apply elem_of_cons in Hk as [->|Hk]; [|done].
    rewrite lookup_insert_eq. by eexists.
Qed.

(** The members [json.Marshal] writes for a map: one for every key. *)
Lemma Marshal_members (m : gmap string json) :
  (omap (λ k, (λ v, (k, v)) <$> m !! k) (orderMapKeys m)).*1 = orderMapKeys m
  ∧ ∀ k v, (k, v) ∈ omap (λ k, (λ v, (k, v)) <$> m !! k) (orderMapKeys m)
           ↔ m !! k = Some v.
Proof.
  assert (∀ keys : list string, Forall (λ k, is_Some (m !! k)) keys →
    (omap (λ k, (λ v, (k, v)) <$> m !! k) keys).*1 = keys
    ∧ ∀ k v, (k, v) ∈ omap (λ k, (λ v, (k, v)) <$> m !! k) keys
             ↔ k ∈ keys ∧ m !! k = Some v) as Hkeys.
  { induction keys as [|k keys IH]; intros Hall.
    - split; [done|]. intros k v. split.
      + intros Hin. by apply elem_of_nil in Hin.
      + intros [Hin _]. by apply elem_of_nil in Hin.
    - apply Forall_cons in Hall as [[v Hv] Hall].
      destruct (IH Hall) as (Hfst & Hin).
      simpl. rewrite Hv. simpl. split; [f_equal; exact Hfst|].
      intros k' v'. split.
      + intros [Heq|Hin']%elem_of_cons.
        * injection Heq as -> ->. split; [apply list_elem_of_here|done].
        * apply Hin in Hin' as [??]. split; [by apply list_elem_of_further|done].
      + intros [[->|Hin']%elem_of_cons Hlook].
        * rewrite Hv in Hlook. injection Hlook as ->. apply list_elem_of_here.
        * apply list_elem_of_further, Hin. done. }
  destruct (Hkeys (orderMapKeys m)) as (Hfst & Hin).
  { apply Forall_forall. intros k. by rewrite elem_of_orderMapKeys. }
  split; [done|]. intros k v. rewrite Hin, elem_of_orderMapKeys.
  split; [by intros [_ ?]|]. intros Hv. split; [by eexists|done].
Qed.

(** Storing what [json.Marshal] wrote for a map [m] into a map [jsonMap]
    leaves every entry of [m] in it, and what [jsonMap] held under other
    keys. *)
Lemma Marshal_store (m jsonMap : gmap string json) :
  foldl (λ acc kv, <[kv.1 := kv.2]> acc) jsonMap
    (omap (λ k, (λ v, (k, v)) <$> m !! k) (orderMapKeys m))
  = m ∪ jsonMap.
Proof.
  destruct (Marshal_members m) as (Hfst & Hin).
  assert (NoDup (omap (λ k, (λ v, (k, v)) <$> m !! k) (orderMapKeys m)).*1)
    as Hnd.
  { rewrite Hfst. unfold orderMapKeys. rewrite merge_sort_Permutation.
    apply NoDup_fst_map_to_list. }
  apply map_eq. intros k. rewrite foldl_insert_lookup by done.
  rewrite lookup_union.
  destruct (m !! k) as [v|] eqn:Hv.
  - apply Hin in Hv.
    destruct (list_find_key_Some _ k v Hnd Hv) as [i ->]. simpl.
    by destruct (jsonMap !! k).
  - rewrite list_find_key_None.
    + by destruct (jsonMap !! k).
    + intros [[k' v] [Heq Hk]]%list_elem_of_fmap. simpl in Heq. subst k'.
      apply Hin in Hk. congruence.
Qed.

(** X18: a value outlives its record.  For two records whose [Data]
    objects are [m1] and [m2], whatever their other members are, a column
    [k] of [m1] that [m2] has no member for shows, in the row of the second
    record, the value of the first: the two rows have the same cell in
    that column. *)
Theorem table_repeats_missing_value (r1 r2 : record.t)
    (m1 m2 : list (string * json)) (k : string) :
  Data_object r1 m1 →
  Data_object r2 m2 →
  k ∈ m1.*1 → k ∉ m2.*1 →
  ∃ (j : nat) (c : string) (row1 row2 : list string),
    table.Headers (table_of [r1; r2]) !! j = Some k
    ∧ table.Rows (table_of [r1; r2]) = [row1; row2]
    ∧ row1 !! j = Some c ∧ row2 !! j = Some c.
Proof.
  intros H1 H2 Hin Hnotin.
  unfold table_of. rewrite !range_Records_cons. cbv zeta.
  destruct (decode_Data_object r1 m1
              ({| block.Indexes := None; block.Data := None |}, None) H1)
    as [ix1 ->]. cbv zeta.
  match goal with
  | |- context [decode ?vars r2] =>
      destruct (decode_Data_object r2 m2 vars H2) as [ix2 ->]
  end. cbv zeta. simpl.
  set (d1 := foldl (λ acc kv, <[kv.1 := kv.2]> acc) ∅ m1).
  set (d2 := foldl (λ acc kv, <[kv.1 := kv.2]> acc) d1 m2).
  rewrite (Marshal_store d1 ∅), (Marshal_store d2 (d1 ∪ ∅)).
  assert (is_Some (d1 !! k)) as [v Hv] by by apply foldl_insert_in.
  assert (d2 !! k = Some v) as Hv2.
  { unfold d2. by rewrite foldl_insert_notin. }
  assert (k ∈ orderMapKeys (d1 ∪ ∅)) as [j Hj]%list_elem_of_lookup.
  { apply elem_of_orderMapKeys. rewrite lookup_union, Hv. by eexists. }
  exists j, (block.cell (Some (d1 ∪ ∅)) k). eexists _, _.
  split; [exact Hj|]. split; [reflexivity|].
  rewrite !list_lookup_fmap, Hj. simpl. split; [done|].
  f_equal. unfold block.cell. simpl.
  by rewrite !lookup_union, Hv, Hv2.
Qed.

End table_values.

Lemma table_repeats_missing_value_witness :
  ∃ (j : nat) (c : string) (row1 row2 : list string),
    table.Headers (table_of [example.indexed "{'x':1,'y':2}";
                             example.envelope "{'x':3}"]) !! j = Some "y"
    ∧ table.Rows (table_of [example.indexed "{'x':1,'y':2}";
                            example.envelope "{'x':3}"]) = [row1; row2]
    ∧ row1 !! j = Some c ∧ row2 !! j = Some c.
Proof.
  apply (table_repeats_missing_value
           (example.indexed "{'x':1,'y':2}") (example.envelope "{'x':3}")
           [("x", JNum "1"); ("y", JNum "2")] [("x", JNum "3")] "y").
  - exists [("Indexes", JObj [("id", JStr "7")])], "data", [("Version", JStr "v2")].
    vm_compute. repeat constructor.
  - exists [("Version", JStr "v2"); ("Indexes", JObj [])], "Data", [].
    vm_compute. repeat constructor.
  - apply list_elem_of_further, list_elem_of_here.
  - intros Hin. apply list_elem_of_singleton in Hin. discriminate Hin.
Defined.

(** ** formatBytes *)

Lemma string_eqb_longer (s suffix : string) (c : ascii) :
  String.eqb (String c s ++ suffix) suffix = false.
Proof.
  apply String.eqb_neq. intros Heq.
  apply (f_equal String.length) in Heq.
  change (String c s ++ suffix) with (String c (s ++ suffix)) in Heq.
  simpl in Heq.
  assert (∀ a b : string, String.length (a ++ b)
                         = (String.length a + String.length b)%nat) as Hlen.
  { intros a b. induction a as [|x a IH]; [done|].
    change (String x a ++ b) with (String x (a ++ b)). simpl. by rewrite IH. }
  rewrite Hlen in Heq. lia.
Qed.

Lemma TrimSuffix_app (s suffix : string) : TrimSuffix (s ++ suffix) suffix = s.
Proof.
  induction s as [|c s IH].
  - change ("" ++ suffix) with suffix. destruct suffix as [|x suffix]; [done|].
    change (TrimSuffix (String x suffix) (String x suffix))
      with (if String.eqb (String x suffix) (String x suffix) then ""
            else String x (TrimSuffix suffix (String x suffix))).
    by rewrite String.eqb_refl.
  - pose proof (string_eqb_longer s suffix c) as Hne.
    change (String c s ++ suffix) with (String c (s ++ suffix)) in *.
    change (TrimSuffix (String c (s ++ suffix)) suffix)
      with (if String.eqb (String c (s ++ suffix)) suffix then ""
            else String c (TrimSuffix (s ++ suffix) suffix)).
    by rewrite Hne, IH.
Qed.

(** A whole number below 2^24, times a power of two, is a [float32]. *)
Lemma float32_of_uint64_exact (n s : N) :
  (0 < n < 2 ^ 24)%N → float32_of_uint64 (n * 2 ^ s) = (n * 2 ^ s)%N.
Proof.
  intros [Hpos Hlt]. unfold float32_of_uint64.
  destruct (n * 2 ^ s <? 2 ^ 24)%N eqn:Hsmall; [done|].
  apply N.ltb_ge in Hsmall. cbv zeta.
  rewrite N.log2_mul_pow2 by lia.
  assert (N.log2 n < 24)%N as Hlog by (apply N.log2_lt_pow2; lia).
  assert (24 ≤ s + N.log2 n)%N as Hbig.
  { apply N.nlt_ge. intros Hlt'.
    assert (n * 2 ^ s < 2 ^ 24)%N; [|lia].
    apply N.log2_lt_pow2; [lia|]. rewrite N.log2_mul_pow2 by lia. lia. }
  set (e := (s + N.log2 n - 23)%N).
  assert (e ≤ s)%N as He by lia.
  assert (n * 2 ^ s = n * 2 ^ (s - e) * 2 ^ e)%N as Hsplit.
  { rewrite <- N.mul_assoc, <- N.pow_add_r. do 2 f_equal. lia. }
  assert (2 ^ e ≠ 0)%N as Hne by (apply N.pow_nonzero; lia).
  assert ((n * 2 ^ s) / 2 ^ e = n * 2 ^ (s - e))%N as ->
    by (rewrite Hsplit; by apply N.div_mul).
  assert ((n * 2 ^ s) mod 2 ^ e = 0)%N as ->
    by (rewrite Hsplit; by apply N.Div0.mod_mul).
  assert (0 < 2 ^ (e - 1))%N as Hhalf
    by (apply N.neq_0_lt_0, N.pow_nonzero; lia).
  destruct (2 ^ (e - 1) <? 0)%N eqn:H1; [apply N.ltb_lt in H1; lia|].
  destruct (0 =? 2 ^ (e - 1))%N eqn:H2; [apply N.eqb_eq in H2; lia|].
  simpl. by rewrite <- Hsplit.
Qed.

(** Such a value, divided by that power again, is written as the whole
    number: the [.0] is trimmed. *)
Lemma formatValue_exact (n s : N) (unit : string) :
  (0 < n < 2 ^ 24)%N → formatValue (n * 2 ^ s) s unit = pretty n ++ unit.
Proof.
  intros Hn. unfold formatValue, Sprintf_1f.
  rewrite float32_of_uint64_exact by done. cbv zeta.
  assert (2 ^ s ≠ 0)%N as Hne by (apply N.pow_nonzero; lia).
  assert (10 * (n * 2 ^ s) / 2 ^ s = 10 * n)%N as ->
    by (rewrite N.mul_assoc; by apply N.div_mul).
  assert ((10 * (n * 2 ^ s)) mod 2 ^ s = 0)%N as ->
    by (rewrite N.mul_assoc; by apply N.Div0.mod_mul).
  assert (0 < 2 ^ s)%N as Hpos by lia.
  destruct (2 ^ s <? 2 * 0)%N eqn:H1; [apply N.ltb_lt in H1; lia|].
  destruct (2 * 0 =? 2 ^ s)%N eqn:H2; [apply N.eqb_eq in H2; lia|].
  simpl orb. cbv iota.
  assert (10 * n / 10 = n)%N as ->
    by (rewrite N.mul_comm; by apply N.div_mul).
  assert ((10 * n) mod 10 = 0)%N as ->
    by (rewrite N.mul_comm; by apply N.Div0.mod_mul).
  change (pretty 0%N) with "0".
  change (pretty n ++ "." ++ "0") with (pretty n ++ ".0").
  by rewrite TrimSuffix_app.
Qed.

(** The unit [formatBytes] picks. *)
Lemma formatBytes_unit (bytes : N) :
  ((1 ≤ bytes < sizeKb)%N → formatBytes bytes = formatValue bytes 0 "B")
  ∧ ((sizeKb ≤ bytes < sizeMb)%N → formatBytes bytes = formatValue bytes 10 "KB")
  ∧ ((sizeMb ≤ bytes < sizeGb)%N → formatBytes bytes = formatValue bytes 20 "MB")
  ∧ ((sizeGb ≤ bytes < sizeTb)%N → formatBytes bytes = formatValue bytes 30 "GB")
  ∧ ((sizeTb ≤ bytes)%N → formatBytes bytes = formatValue bytes 40 "TB").
Proof.
  unfold formatBytes.
  assert (sizeByte = 1 ∧ sizeKb = 1024 ∧ sizeMb = 1048576
          ∧ sizeGb = 1073741824 ∧ sizeTb = 1099511627776)%N
    as (-> & -> & -> & -> & ->) by done.
  repeat split; intros Hrange.
  - assert ((1099511627776 <=? bytes) = false)%N as -> by (apply N.leb_gt; lia).
    assert ((1073741824 <=? bytes) = false)%N as -> by (apply N.leb_gt; lia).
    assert ((1048576 <=? bytes) = false)%N as -> by (apply N.leb_gt; lia).
    assert ((1024 <=? bytes) = false)%N as -> by (apply N.leb_gt; lia).
    by assert ((1 <=? bytes) = true)%N as -> by (apply N.leb_le; lia).
  - assert ((1099511627776 <=? bytes) = false)%N as -> by (apply N.leb_gt; lia).
    assert ((1073741824 <=? bytes) = false)%N as -> by (apply N.leb_gt; lia).
    assert ((1048576 <=? bytes) = false)%N as -> by (apply N.leb_gt; lia).
    by assert ((1024 <=? bytes) = true)%N as -> by (apply N.leb_le; lia).
  - assert ((1099511627776 <=? bytes) = false)%N as -> by (apply N.leb_gt; lia).
    assert ((1073741824 <=? bytes) = false)%N as -> by (apply N.leb_gt; lia).
    by assert ((1048576 <=? bytes) = true)%N as -> by (apply N.leb_le; lia).
  - assert ((1099511627776 <=? bytes) = false)%N as -> by (apply N.leb_gt; lia).
    by assert ((1073741824 <=? bytes) = true)%N as -> by (apply N.leb_le; lia).
  - by assert ((1099511627776 <=? bytes) = true)%N as -> by (apply N.leb_le; lia).
Qed.

(** X19: below a kilobyte the bytes are written as they are: [formatBytes]
    of 0 is [0], and of a number from 1 to 1023 it is that number followed
    by [B]. *)
Theorem formatBytes_small (bytes : N) :
  (bytes < 1024)%N →
  formatBytes bytes = if (bytes =? 0)%N then "0" else pretty bytes ++ "B".
Proof.
  intros Hlt. destruct (bytes =? 0)%N eqn:Hz.
  - apply N.eqb_eq in Hz. by subst.
  - apply N.eqb_neq in Hz.
    destruct (formatBytes_unit bytes) as (HB & _).
    rewrite HB by (change sizeKb with 1024%N; lia).
    rewrite <- (formatValue_exact bytes 0 "B").
    + by rewrite N.pow_0_r, N.mul_1_r.
    + split; [lia|]. change (2 ^ 24)%N with 16777216%N. lia.
Qed.

Lemma formatBytes_small_witness :
  formatBytes 1023 = if (1023 =? 0)%N then "0" else pretty 1023%N ++ "B".
Proof. apply formatBytes_small. reflexivity. Defined.

(** X20: whole multiples of a unit are written without a fraction: for [n]
    from 1 to 1023, [n] kilobytes, megabytes, gigabytes or terabytes are
    written as [n] followed by the unit. *)
Theorem formatBytes_whole_units (n : N) :
  (0 < n < 1024)%N →
  formatBytes (n * sizeKb) = pretty n ++ "KB"
  ∧ formatBytes (n * sizeMb) = pretty n ++ "MB"
  ∧ formatBytes (n * sizeGb) = pretty n ++ "GB"
  ∧ formatBytes (n * sizeTb) = pretty n ++ "TB".
Proof.
  intros Hn.
  assert (0 < n < 2 ^ 24)%N as Hn' by (change (2 ^ 24)%N with 16777216%N; lia).
  assert (sizeKb = 1024 ∧ sizeMb = 1048576
          ∧ sizeGb = 1073741824 ∧ sizeTb = 1099511627776)%N
    as (HKb & HMb & HGb & HTb) by done.
  repeat split.
  - destruct (formatBytes_unit (n * sizeKb)) as (_ & Hunit & _).
    rewrite Hunit by (rewrite HKb, HMb; lia).
    apply (formatValue_exact n 10 "KB" Hn').
  - destruct (formatBytes_unit (n * sizeMb)) as (_ & _ & Hunit & _).
    rewrite Hunit by (rewrite HMb, HGb; lia).
    apply (formatValue_exact n 20 "MB" Hn').
  - destruct (formatBytes_unit (n * sizeGb)) as (_ & _ & _ & Hunit & _).
    rewrite Hunit by (rewrite HGb, HTb; lia).
    apply (formatValue_exact n 30 "GB" Hn').
  - destruct (formatBytes_unit (n * sizeTb)) as (_ & _ & _ & _ & Hunit).
    rewrite Hunit by (rewrite HTb; lia).
    apply (formatValue_exact n 40 "TB" Hn').
Qed.

Lemma formatBytes_whole_units_witness :
  formatBytes (3 * sizeKb) = pretty 3%N ++ "KB".
Proof. apply (formatBytes_whole_units 3). split; reflexivity. Defined.

(** X21: the number before the unit can reach 1024.  The last 51 byte
    counts below a megabyte are at least 1023.95 kilobytes; they round to
    1024.0 and are written as [1024KB]. *)
Theorem formatBytes_rounds_to_1024 (bytes : N) :
  (1048525 ≤ bytes < 1048576)%N → formatBytes bytes = "1024KB".
Proof.
  intros [Hlo Hhi].
  assert (forallb (λ i, String.eqb (formatBytes (1048525 + N.of_nat i)) "1024KB")
                  (seq 0 51) = true) as Hall by (vm_compute; reflexivity).
  rewrite forallb_forall in Hall.
  replace bytes with (1048525 + N.of_nat (N.to_nat (bytes - 1048525)))%N by lia.
  apply String.eqb_eq, Hall, in_seq. lia.
Qed.

Lemma formatBytes_rounds_to_1024_witness : formatBytes 1048575 = "1024KB".
Proof. apply formatBytes_rounds_to_1024. split; [discriminate|reflexivity]. Defined.

(** ** grecords *)

(** X22: [grecords] writes the given key into the records of the index
    itself.  The records it returns are the records the index holds
    afterwards, each exactly once; there are [size()] of them; every one
    carries the given key, and its payload is what it was. *)
Theorem grecords_stamps_index `{!SortCollection} (b : block.t) (key : string) :
  (block.grecords b key).2 ≡ₚ (map_to_list (block.recs (block.grecords b key).1)).*2
  ∧ length (block.grecords b key).2 = block.size b
  ∧ block.size (block.grecords b key).1 = block.size b
  ∧ Forall (λ r, record.key r = key) (block.grecords b key).2
  ∧ ∀ k, block.get (block.grecords b key).1 k
         = match block.get b k with
           | (Some r, err) =>
               (Some {| record.key := key; record.data := record.data r;
                        record.Content := record.Content r |}, err)
           | (None, err) => (None, err)
           end.
Proof.
  unfold block.grecords, block.size, block.get. simpl.
  split; [apply sort_collection_Permutation|].
  split.
  { rewrite sort_collection_Permutation, length_fmap, length_map_to_list.
    apply map_size_fmap. }
  split; [apply map_size_fmap|].
  split.
  - rewrite sort_collection_Permutation. apply Forall_forall.
    intros r [[k r'] [-> Hin]]%list_elem_of_fmap.
    apply elem_of_map_to_list in Hin. rewrite lookup_fmap in Hin.
    destruct (block.recs b !! k) as [r0|]; [|done].
    by injection Hin as <-.
  - intros k. rewrite lookup_fmap. by destruct (block.recs b !! k).
Qed.

(** ** The time stamps over a sequence of inserts *)

(** X23: over any sequence of [BeforeInsert] calls, a [CreatedAt] that is
    set is never changed; on a fresh model it becomes the stamp of the
    first call, when that is not zero, and stays; and [UpdatedAt] is the
    stamp of the last call. *)
Theorem TimeStampedModel_BeforeInsert_sequence (m : TimeStampedModel.t)
    (stamps : list time.Time) (stamp : time.Time) :
  (time.IsZero (TimeStampedModel.CreatedAt m) = false →
     TimeStampedModel.CreatedAt
       (foldl (λ m t, (TimeStampedModel.BeforeInsert t m).1) m stamps)
     = TimeStampedModel.CreatedAt m)
  ∧ (time.IsZero (TimeStampedModel.CreatedAt m) = true →
     time.IsZero stamp = false →
     TimeStampedModel.CreatedAt
       (foldl (λ m t, (TimeStampedModel.BeforeInsert t m).1) m (stamp :: stamps))
     = stamp)
  ∧ TimeStampedModel.UpdatedAt
      (foldl (λ m t, (TimeStampedModel.BeforeInsert t m).1) m
             (stamps ++ [stamp])%list)
    = stamp.
Proof.
  assert (∀ (l : list time.Time) (m0 : TimeStampedModel.t),
    time.IsZero (TimeStampedModel.CreatedAt m0) = false →
    TimeStampedModel.CreatedAt
      (foldl (λ m t, (TimeStampedModel.BeforeInsert t m).1) m0 l)
    = TimeStampedModel.CreatedAt m0) as Hkeep.
  { induction l as [|t l IH]; intros m0 Hset; simpl; [done|].
    rewrite IH; unfold TimeStampedModel.BeforeInsert; rewrite Hset; done. }
  split; [apply Hkeep|]. split.
  - intros Hzero Hstamp. simpl. rewrite Hkeep.
    + unfold TimeStampedModel.BeforeInsert. by rewrite Hzero.
    + unfold TimeStampedModel.BeforeInsert. by rewrite Hzero.
  - by rewrite foldl_app.
Qed.

Lemma TimeStampedModel_BeforeInsert_sequence_witness :
  TimeStampedModel.CreatedAt
    (foldl (λ m t, (TimeStampedModel.BeforeInsert t m).1)
           (TimeStampedModel.mk (time.mk 0 0) (time.mk 0 0))
           [time.mk 100 0; time.mk 200 0; time.mk 300 0])
  = time.mk 100 0.
Proof.
  destruct (TimeStampedModel_BeforeInsert_sequence
              (TimeStampedModel.mk (time.mk 0 0) (time.mk 0 0))
              [time.mk 200 0; time.mk 300 0] (time.mk 100 0))
    as (_ & Hfirst & _).
  apply Hfirst; reflexivity.
Defined.

(** ** orderMapKeys *)

(** X24: [orderMapKeys] returns every key of the map exactly once, in
    ascending order of bytes. *)
Theorem orderMapKeys_keys {V : Type} (m : gmap string V) :
  (∀ k, k ∈ orderMapKeys m ↔ is_Some (m !! k))
  ∧ NoDup (orderMapKeys m)
  ∧ StronglySorted String.le (orderMapKeys m)
  ∧ length (orderMapKeys m) = size m.
Proof.
  split; [apply elem_of_orderMapKeys|].
  split; [|split; [apply orderMapKeys_sorted|]].
  - unfold orderMapKeys. rewrite merge_sort_Permutation.
    apply NoDup_fst_map_to_list.
  - unfold orderMapKeys.
    by rewrite merge_sort_Permutation, length_fmap, length_map_to_list.
Qed.

(** ** Bad blocks and loaded blocks *)

(** The loop of [readBlock] reports bad records only, never a bad block. *)
Lemma range_recordKeys_no_bad_block `{!GoLib, !Crypto} (b : block.t) dataBlock keys record result w :
  (diagnostics (block.range_recordKeys b dataBlock keys record result w).2).1 = [].
Proof.
  revert record result.
  induction keys as [|k ks IH]; intros record result; simpl; [done|].
  destruct (default ∅ dataBlock !! k) as [[| | |s| |]|]; try done.
  run. rewrite decrypt_decrypted.
  destruct (Unmarshal_map _ record) as [record' [e|]]; [done|].
  destruct (json_Indent _) as [buf|e]; [|done].
  apply IH.
Qed.

(** X25: for a block file that can be read, [BadBlocks] after [records]
    tells whether the bytes decoded: it holds the path of the block file,
    once, when [json.Unmarshal] reported an error for them, and is empty
    when it did not, whatever the entries are.  In the first case
    [BadRecords] is empty and there are no records. *)
Theorem records_BadBlocks `{!GoLib, !Crypto} (b : block.t) (w : world) (data : string) :
  files w !! block.blockFile b w = Some data →
  dataset.BadBlocks (Dataset (block.records b w).1)
  = (if (Unmarshal_map data None).2 is Some _ then [block.blockFile b w] else [])
  ∧ ((Unmarshal_map data None).2 ≠ None →
     dataset.BadRecords (Dataset (block.records b w).1) = []
     ∧ (block.records b w).2 = Return []).
Proof.
  intros Hfile.
  destruct (Unmarshal_map data None) as [dataBlock [err|]] eqn:Hdecode; simpl.
  - rewrite (records_bad_block b w data err) by (by rewrite ?Hdecode). done.
  - split; [|done].
    rewrite records_unfold, (readBlock_decoded b w data dataBlock) by done.
    simpl. apply range_recordKeys_no_bad_block.
Qed.

Lemma records_BadBlocks_witness :
  dataset.BadBlocks
    (Dataset (block.records example.b0 (example.on_disk "not json")).1)
  = ["/db/accounts/b0.json"]
  ∧ dataset.BadBlocks
      (Dataset (block.records example.b0 (example.on_disk example.mixed_file)).1)
    = [].
Proof.
  split.
  - destruct (records_BadBlocks example.b0 (example.on_disk "not json")
                "not json") as [H _]; [vm_compute; reflexivity|].
    rewrite H. vm_compute. reflexivity.
  - destruct (records_BadBlocks example.b0 (example.on_disk example.mixed_file)
                example.mixed_file) as [H _]; [vm_compute; reflexivity|].
    rewrite H. vm_compute. reflexivity.
Defined.

(** X26: a block that holds hydrated records is not read again:
    [RecordCount] returns their number and [table] returns their table,
    and both leave the world as it is, the two lists of the dataset
    included. *)
Theorem loaded_block_not_read `{!GoLib, !Crypto} (b : block.t) (w : world) :
  block.Records b ≠ [] →
  block.RecordCount b w = (w, Return (b, length (block.Records b)))
  ∧ block.table b w = (w, Return (b, table_of (block.Records b))).
Proof.
  intros Hloaded. split.
  - unfold block.RecordCount. run. by rewrite loadRecords_loaded.
  - rewrite table_unfold. by rewrite loadRecords_loaded.
Qed.

Lemma loaded_block_not_read_witness :
  block.RecordCount (block.set_Records example.three_records example.b0)
    example.nothing_on_disk
  = (example.nothing_on_disk,
     Return (block.set_Records example.three_records example.b0, 3)).
Proof.
  apply (loaded_block_not_read
           (block.set_Records example.three_records example.b0)
           example.nothing_on_disk).
  discriminate.
Defined.
